(** * Boosted 0/1 knapsack: the model builder and result extractor of
      [solutions/jaume.py], embedded and verified.

    The Python function [knapsack_with_boosts] builds a CP-SAT model (boolean
    decision variables, AND-linking constraints, two capacity constraints and a
    linear objective), hands it to an external solver, and reads the answer
    back.  The embedding follows the source statement by statement:

    - Python [int] is [Z]; Python [float] is idealised as an exact rational
      [Q] (no rounding), compared with [==];
    - list subscripts follow Python: a negative index counts from the end and
      an index outside [[-len, len)] raises [IndexError];
    - the model object is mutated by [NewBoolVar], [Add] and [Maximize]; this
      is a state-and-exception monad over the model and the console;
    - the solver engine is not part of the program: it is a parameter
      [Solve]; what is assumed of it is that an answer with a solution is
      feasible for the model and reports the objective at that solution.
      How close to the maximum an answer is, is not assumed: statements
      about the maximum are about the model, not about the engine;
    - the library takes 64-bit integers and raises on others; that raise is
      not modelled, and statements about when a call raises assume integers
      in that range;
    - with at least one item every argument of [Add] is a comparison of
      linear expressions, as here; with no item Python compares two
      integers and the library is handed a [bool], for which it records a
      constant variable: the shape of the model is stated for inputs with
      an item. *)

From Stdlib Require Import String DecimalString List Sorted ZArith QArith Lia Bool.
Import ListNotations.
Open Scope Z_scope.

(** ** Python values and subscripts *)

Module Py.

Inductive exn : Type := IndexError.

Definition len {A : Type} (l : list A) : Z := Z.of_nat (length l).

(** [l[i]]: [None] stands for [IndexError]. *)
Definition getitem {A : Type} (l : list A) (i : Z) : option A :=
  if (0 <=? i) && (i <? len l) then nth_error l (Z.to_nat i)
  else if (- len l <=? i) && (i <? 0) then nth_error l (Z.to_nat (len l + i))
  else None.

Definition range (n : Z) : list Z := map Z.of_nat (seq 0 (Z.to_nat n)).

(** [str(i)] for an [int], as used by the f-strings. *)
Definition str (i : Z) : string := NilZero.string_of_int (Z.to_int i).

(** Truth value of an [int]. *)
Definition truthy (i : Z) : bool := negb (i =? 0).

End Py.

(** ** The CP-SAT model object *)

(** A variable is known to the model by its index, in creation order. *)
Definition BoolVar : Type := nat.

(** Linear expressions as the overloaded operators build them; [C] is [Z] in
    constraints and [Q] in the objective. *)
Inductive LinearExpr (C : Type) : Type :=
| Var (v : BoolVar)
| Const (c : C)
| Plus (e1 e2 : LinearExpr C)
| Minus (e1 e2 : LinearExpr C)
| Times (c : C) (e : LinearExpr C).

Arguments Var {C} v.
Arguments Const {C} c.
Arguments Plus {C} e1 e2.
Arguments Minus {C} e1 e2.
Arguments Times {C} c e.

(** The builtin [sum]: starts from [0] and adds from the left. *)
Definition py_sum {C : Type} (zero : C) (terms : list (LinearExpr C)) : LinearExpr C :=
  fold_left Plus terms (Const zero).

Inductive Constraint : Type :=
| Le (lhs rhs : LinearExpr Z)
| Ge (lhs rhs : LinearExpr Z).

Record CpModel : Type := mkModel {
  variables : list string;            (* names, in creation order *)
  constraints : list Constraint;
  objective : option (LinearExpr Q)   (* set by Maximize *)
}.

Definition new_CpModel : CpModel := mkModel [] [] None.

Inductive CpSolverStatus : Type :=
| UNKNOWN | MODEL_INVALID | FEASIBLE | INFEASIBLE | OPTIMAL.

Record CpSolverResponse : Type := mkResponse {
  status : CpSolverStatus;
  solution : list Z;                  (* one value per variable *)
  objective_value : Q
}.

(** [solver.Value(v)] *)
Definition Value (r : CpSolverResponse) (v : BoolVar) : Z := nth v (solution r) 0.

(** ** Semantics of a model *)

Fixpoint evalZ (sol : list Z) (e : LinearExpr Z) : Z :=
  match e with
  | Var v => nth v sol 0
  | Const c => c
  | Plus e1 e2 => evalZ sol e1 + evalZ sol e2
  | Minus e1 e2 => evalZ sol e1 - evalZ sol e2
  | Times c e1 => c * evalZ sol e1
  end.

Fixpoint evalQ (sol : list Z) (e : LinearExpr Q) : Q :=
  match e with
  | Var v => inject_Z (nth v sol 0)
  | Const c => c
  | Plus e1 e2 => (evalQ sol e1 + evalQ sol e2)%Q
  | Minus e1 e2 => (evalQ sol e1 - evalQ sol e2)%Q
  | Times c e1 => (c * evalQ sol e1)%Q
  end.

Definition holdsb (sol : list Z) (c : Constraint) : bool :=
  match c with
  | Le l r => evalZ sol l <=? evalZ sol r
  | Ge l r => evalZ sol l >=? evalZ sol r
  end.

Definition is_bool (v : Z) : bool := (0 <=? v) && (v <=? 1).

(** An assignment is feasible when it gives every variable a boolean value
    and satisfies every constraint. *)
Definition feasibleb (m : CpModel) (sol : list Z) : bool :=
  (length sol =? length (variables m))%nat
  && forallb is_bool sol
  && forallb (holdsb sol) (constraints m).

Definition objective_at (m : CpModel) (sol : list Z) : Q :=
  match objective m with
  | Some e => evalQ sol e
  | None => 0%Q
  end.

Definition has_solution (s : CpSolverStatus) : bool :=
  match s with
  | OPTIMAL | FEASIBLE => true
  | _ => false
  end.

(** Contract of the solver interface: a response with status [OPTIMAL] or
    [FEASIBLE] carries a feasible assignment and the objective's value at
    it. *)
Definition sound_response (m : CpModel) (r : CpSolverResponse) : Prop :=
  has_solution (status r) = true ->
  feasibleb m (solution r) = true /\ objective_value r == objective_at m (solution r).

(** The values the objective takes on feasible assignments, and the
    greatest of them. *)
Definition attains (m : CpModel) (v : Q) : Prop :=
  exists sol, feasibleb m sol = true /\ objective_at m sol == v.

Definition optimum_of (m : CpModel) (v : Q) : Prop :=
  attains m v /\
  forall sol, feasibleb m sol = true -> (objective_at m sol <= v)%Q.

(** ** The builder monad: model and console state, with exceptions *)

Record World : Type := mkWorld {
  model : CpModel;
  stdout : list string
}.

Definition M (A : Type) : Type := World -> (Py.exn + A) * World.

Definition ret {A : Type} (a : A) : M A := fun w => (inr a, w).

Definition bind {A B : Type} (c : M A) (k : A -> M B) : M B :=
  fun w => match c w with
           | (inr a, w') => k a w'
           | (inl e, w') => (inl e, w')
           end.

Notation "x <- c ;; k" := (bind c (fun x => k))
  (at level 61, c at next level, right associativity).
Notation "c ;;; k" := (bind c (fun _ => k))
  (at level 61, right associativity).

Definition raise {A : Type} (e : Py.exn) : M A := fun w => (inl e, w).

(** [l[i]] inside the function body. *)
Definition subscript {A : Type} (l : list A) (i : Z) : M A :=
  match Py.getitem l i with
  | Some a => ret a
  | None => raise Py.IndexError
  end.

Definition NewBoolVar (name : string) : M BoolVar :=
  fun w =>
    let m := model w in
    (inr (length (variables m)),
     mkWorld (mkModel (variables m ++ [name]) (constraints m) (objective m)) (stdout w)).

Definition Add (c : Constraint) : M unit :=
  fun w =>
    let m := model w in
    (inr tt, mkWorld (mkModel (variables m) (constraints m ++ [c]) (objective m)) (stdout w)).

Definition Maximize (e : LinearExpr Q) : M unit :=
  fun w =>
    let m := model w in
    (inr tt, mkWorld (mkModel (variables m) (constraints m) (Some e)) (stdout w)).

Definition the_model : M CpModel := fun w => (inr (model w), w).

Definition print (line : string) : M unit :=
  fun w => (inr tt, mkWorld (model w) (stdout w ++ [line])).

(** Comprehensions and append-loops. *)
Fixpoint mapM {A B : Type} (f : A -> M B) (l : list A) : M (list B) :=
  match l with
  | [] => ret []
  | a :: l' => b <- f a ;; bs <- mapM f l' ;; ret (b :: bs)
  end.

Fixpoint filterM {A : Type} (p : A -> M bool) (l : list A) : M (list A) :=
  match l with
  | [] => ret []
  | a :: l' => keep <- p a ;; rest <- filterM p l' ;;
               ret (if keep then a :: rest else rest)
  end.

(** ** [knapsack_with_boosts] *)

Definition Boost : Type := (Z * Z * Q)%type.

Definition x_name (i : Z) : string := ("x[" ++ Py.str i ++ "]")%string.
Definition z_name (a b : Z) : string :=
  ("z[" ++ Py.str a ++ "," ++ Py.str b ++ "]")%string.

(** Body of the loop over [boosts] that declares [z_ab = x[a] AND x[b]]. *)
Definition link (x : list BoolVar) (t : Boost) : M ((Z * Z) * BoolVar) :=
  let '(a, b, _) := t in
  z_var <- NewBoolVar (z_name a b) ;;
  xa <- subscript x a ;;
  Add (Le (Var z_var) (Var xa)) ;;;
  xb <- subscript x b ;;
  Add (Le (Var z_var) (Var xb)) ;;;
  xa' <- subscript x a ;;
  xb' <- subscript x b ;;
  Add (Ge (Var z_var) (Minus (Plus (Var xa') (Var xb')) (Const 1))) ;;;
  ret ((a, b), z_var).

(** [data[i] * x[i]], the summand of a capacity constraint. *)
Definition capacity_term (data : list Z) (x : list BoolVar) (i : Z) : M (LinearExpr Z) :=
  d <- subscript data i ;;
  xi <- subscript x i ;;
  ret (Times d (Var xi)).

(** [values[i] * x[i]] *)
Definition value_term (values : list Q) (x : list BoolVar) (i : Z) : M (LinearExpr Q) :=
  v <- subscript values i ;;
  xi <- subscript x i ;;
  ret (Times v (Var xi)).

(** Body of the loop over [zip(z, boosts)]. *)
Definition boost_term (values : list Q) (zt : ((Z * Z) * BoolVar) * Boost) : M (LinearExpr Q) :=
  let '(((a, _), z_var), (_, _, boost)) := zt in
  va <- subscript values a ;;
  let extra := (va * (boost - 1))%Q in
  ret (Times extra (Var z_var)).

Definition is_selected (r : CpSolverResponse) (x : list BoolVar) (i : Z) : M bool :=
  xi <- subscript x i ;;
  ret (Py.truthy (Value r xi)).

Definition sumZ (l : list Z) : Z := fold_left Z.add l 0.

Definition debug_line (tw max_weight tv max_volume : Z) : string :=
  ("--> weight " ++ Py.str tw ++ " (≤" ++ Py.str max_weight ++ "), volume "
   ++ Py.str tv ++ " (≤" ++ Py.str max_volume ++ ")")%string.

Section Knapsack.

(** The external engine: [Solve t m] is what [solver.Solve(model)] answers
    under the time limit [t]. *)
Variable Solve : Q -> CpModel -> CpSolverResponse.

Definition knapsack_body
    (weights volumes : list Z) (values : list Q) (boosts : list Boost)
    (max_weight max_volume : Z) (time_limit_s : Q)
  : M (option (list Z) * option Q) :=
  let n := Py.len values in
  x <- mapM (fun i => NewBoolVar (x_name i)) (Py.range n) ;;
  z <- mapM (link x) boosts ;;
  wsum <- mapM (capacity_term weights x) (Py.range n) ;;
  Add (Le (py_sum 0 wsum) (Const max_weight)) ;;;
  vsum <- mapM (capacity_term volumes x) (Py.range n) ;;
  Add (Le (py_sum 0 vsum) (Const max_volume)) ;;;
  base_terms <- mapM (value_term values x) (Py.range n) ;;
  extra_terms <- mapM (boost_term values) (combine z boosts) ;;
  let obj_terms := base_terms ++ extra_terms in
  Maximize (py_sum 0%Q obj_terms) ;;;
  m <- the_model ;;
  let r := Solve time_limit_s m in
  if negb (has_solution (status r)) then ret (None, None)
  else
    selected <- filterM (is_selected r x) (Py.range n) ;;
    ws <- mapM (subscript weights) selected ;;
    let tw := sumZ ws in
    vs <- mapM (subscript volumes) selected ;;
    let tv := sumZ vs in
    print (debug_line tw max_weight tv max_volume) ;;;
    let total := objective_value r in
    ret (Some selected, Some total).

(** A call starts with a fresh model and returns a value or raises. *)
Definition knapsack_with_boosts
    (weights volumes : list Z) (values : list Q) (boosts : list Boost)
    (max_weight max_volume : Z) (time_limit_s : Q)
  : Py.exn + (option (list Z) * option Q) :=
  fst (knapsack_body weights volumes values boosts max_weight max_volume time_limit_s
         (mkWorld new_CpModel [])).

End Knapsack.

(** ** A reference engine: exhaustive search

    It meets the solver contract on every model, so the assumptions made on
    [Solve] below are satisfiable, and it lets the program run on concrete
    inputs. *)

Fixpoint all_assignments (n : nat) : list (list Z) :=
  match n with
  | O => [[]]
  | S k => flat_map (fun s => [0 :: s; 1 :: s]) (all_assignments k)
  end.

Definition keep_better (m : CpModel) (best : option (list Z)) (sol : list Z)
  : option (list Z) :=
  if feasibleb m sol then
    match best with
    | None => Some sol
    | Some b => if Qle_bool (objective_at m sol) (objective_at m b)
                then Some b else Some sol
    end
  else best.

Definition exhaustive_Solve (t : Q) (m : CpModel) : CpSolverResponse :=
  match fold_left (keep_better m) (all_assignments (length (variables m))) None with
  | None => mkResponse INFEASIBLE [] 0
  | Some sol => mkResponse OPTIMAL sol (objective_at m sol)
  end.

(** ** Running the builder: state-free steps *)

Definition lift {A : Type} (o : option A) : M A :=
  match o with
  | Some a => ret a
  | None => raise Py.IndexError
  end.

Fixpoint traverse {A B : Type} (g : A -> option B) (l : list A) : option (list B) :=
  match l with
  | [] => Some []
  | a :: l' =>
      match g a, traverse g l' with
      | Some b, Some bs => Some (b :: bs)
      | _, _ => None
      end
  end.

Lemma bind_lift_Some {A B : Type} (o : option A) (a : A) (k : A -> M B) (w : World) :
  o = Some a -> bind (lift o) k w = k a w.
Proof. intros ->. reflexivity. Qed.

Lemma bind_lift_None {A B : Type} (o : option A) (k : A -> M B) (w : World) :
  o = None -> bind (lift o) k w = (inl Py.IndexError, w).
Proof. intros ->. reflexivity. Qed.

Lemma mapM_lift {A B : Type} (f : A -> M B) (g : A -> option B) :
  (forall a w, f a w = lift (g a) w) ->
  forall l w, mapM f l w = lift (traverse g l) w.
Proof.
  intros Hf l. induction l as [|a l IH]; intros w; simpl.
  - reflexivity.
  - unfold bind. rewrite Hf. destruct (g a) as [b|]; simpl.
    + rewrite IH. destruct (traverse g l); reflexivity.
    + reflexivity.
Qed.

Lemma traverse_map {A B C : Type} (g : B -> option C) (h : A -> B) (l : list A) :
  traverse g (map h l) = traverse (fun a => g (h a)) l.
Proof.
  induction l as [|a l IH]; simpl; [reflexivity|]. now rewrite IH.
Qed.

Lemma traverse_total {A B : Type} (g : A -> option B) (h : A -> B) (l : list A) :
  (forall a, In a l -> g a = Some (h a)) -> traverse g l = Some (map h l).
Proof.
  induction l as [|a l IH]; intros H; simpl; [reflexivity|].
  rewrite (H a (or_introl eq_refl)), IH; [reflexivity|].
  intros a' Ha'. apply H. now right.
Qed.

Lemma traverse_fails {A B : Type} (g : A -> option B) (l : list A) (a : A) :
  In a l -> g a = None -> traverse g l = None.
Proof.
  induction l as [|a' l IH]; simpl; [tauto|].
  intros [->|Hin] Hg.
  - now rewrite Hg.
  - rewrite (IH Hin Hg). now destruct (g a').
Qed.

(** ** Python subscripts, resolved *)

(** The position that [l[i]] reads in a list of length [n], when there is
    one. *)
Definition resolve (n : nat) (i : Z) : option nat :=
  if (0 <=? i) && (i <? Z.of_nat n) then Some (Z.to_nat i)
  else if (- Z.of_nat n <=? i) && (i <? 0) then Some (Z.to_nat (Z.of_nat n + i))
  else None.

(** The same position, with [0] where [l[i]] raises. *)
Definition position (n : nat) (i : Z) : nat :=
  match resolve n i with Some p => p | None => O end.

Definition in_bounds (n : nat) (i : Z) : bool :=
  (- Z.of_nat n <=? i) && (i <? Z.of_nat n).

Lemma resolve_lt (n : nat) (i : Z) (p : nat) : resolve n i = Some p -> (p < n)%nat.
Proof.
  unfold resolve.
  destruct ((0 <=? i) && (i <? Z.of_nat n)) eqn:E1.
  - intros [= <-]. lia.
  - destruct ((- Z.of_nat n <=? i) && (i <? 0)) eqn:E2; [|discriminate].
    intros [= <-]. lia.
Qed.

Lemma resolve_in_bounds (n : nat) (i : Z) :
  in_bounds n i = true -> resolve n i = Some (position n i).
Proof.
  unfold in_bounds, position, resolve. intros H.
  destruct ((0 <=? i) && (i <? Z.of_nat n)) eqn:E1; [reflexivity|].
  destruct ((- Z.of_nat n <=? i) && (i <? 0)) eqn:E2; [reflexivity|]. lia.
Qed.

Lemma resolve_out_of_bounds (n : nat) (i : Z) :
  in_bounds n i = false -> resolve n i = None.
Proof.
  unfold in_bounds, resolve. intros H.
  destruct ((0 <=? i) && (i <? Z.of_nat n)) eqn:E1; [lia|].
  destruct ((- Z.of_nat n <=? i) && (i <? 0)) eqn:E2; [lia|reflexivity].
Qed.

Lemma resolve_of_nat (n i : nat) :
  resolve n (Z.of_nat i) = if (i <? n)%nat then Some i else None.
Proof.
  unfold resolve.
  destruct (i <? n)%nat eqn:E; [apply Nat.ltb_lt in E | apply Nat.ltb_ge in E].
  - replace ((0 <=? Z.of_nat i) && (Z.of_nat i <? Z.of_nat n)) with true by lia.
    now rewrite Nat2Z.id.
  - replace ((0 <=? Z.of_nat i) && (Z.of_nat i <? Z.of_nat n)) with false by lia.
    replace ((- Z.of_nat n <=? Z.of_nat i) && (Z.of_nat i <? 0)) with false by lia.
    reflexivity.
Qed.

Lemma getitem_resolve {A : Type} (l : list A) (i : Z) :
  Py.getitem l i =
  match resolve (length l) i with
  | Some p => nth_error l p
  | None => None
  end.
Proof.
  unfold Py.getitem, resolve, Py.len.
  destruct ((0 <=? i) && (i <? Z.of_nat (length l))); [reflexivity|].
  destruct ((- Z.of_nat (length l) <=? i) && (i <? 0)); reflexivity.
Qed.

Lemma getitem_in_bounds {A : Type} (d : A) (l : list A) (i : Z) :
  in_bounds (length l) i = true ->
  Py.getitem l i = Some (nth (position (length l) i) l d).
Proof.
  intros H. rewrite getitem_resolve.
  pose proof (resolve_in_bounds _ _ H) as R. rewrite R.
  apply nth_error_nth'. eapply resolve_lt; eassumption.
Qed.

Lemma getitem_out_of_bounds {A : Type} (l : list A) (i : Z) :
  in_bounds (length l) i = false -> Py.getitem l i = None.
Proof.
  intros H. rewrite getitem_resolve. now rewrite (resolve_out_of_bounds _ _ H).
Qed.

Lemma getitem_of_nat {A : Type} (l : list A) (i : nat) :
  Py.getitem l (Z.of_nat i) = nth_error l i.
Proof.
  rewrite getitem_resolve, resolve_of_nat.
  destruct (i <? length l)%nat eqn:E; [reflexivity|].
  apply Nat.ltb_ge in E. symmetry. now apply nth_error_None.
Qed.

Lemma getitem_seq (n : nat) (i : Z) : Py.getitem (seq 0 n) i = resolve n i.
Proof.
  rewrite getitem_resolve, length_seq.
  destruct (resolve n i) as [p|] eqn:R; [|reflexivity].
  apply resolve_lt in R.
  rewrite (nth_error_nth' _ O) by (now rewrite length_seq).
  now rewrite seq_nth.
Qed.

(** ** Running the builder: what each loop leaves in the model *)

Definition with_variables (w : World) (names : list string) : World :=
  mkWorld (mkModel (variables (model w) ++ names) (constraints (model w))
             (objective (model w))) (stdout w).

Lemma mapM_NewBoolVar {A : Type} (name : A -> string) (l : list A) (w : World) :
  mapM (fun i => NewBoolVar (name i)) l w =
  (inr (seq (length (variables (model w))) (length l)), with_variables w (map name l)).
Proof.
  revert w. induction l as [|a l IH]; intros w; simpl.
  - unfold ret, with_variables. rewrite app_nil_r. now destruct w as [[? ? ?] ?].
  - unfold bind at 1. unfold NewBoolVar at 1. unfold bind. rewrite IH. simpl.
    unfold ret, with_variables. simpl. rewrite length_app, <- app_assoc. simpl.
    now rewrite Nat.add_1_r.
Qed.

(** The three linking constraints of one boost, on resolved subscripts. *)
Definition link_constraints (n : nat) (z_var : BoolVar) (t : Boost) : list Constraint :=
  let '(a, b, _) := t in
  [ Le (Var z_var) (Var (position n a));
    Le (Var z_var) (Var (position n b));
    Ge (Var z_var) (Minus (Plus (Var (position n a)) (Var (position n b))) (Const 1)) ].

Fixpoint all_links (n : nat) (k : BoolVar) (boosts : list Boost) : list Constraint :=
  match boosts with
  | [] => []
  | t :: rest => link_constraints n k t ++ all_links n (S k) rest
  end.

Fixpoint z_list (k : BoolVar) (boosts : list Boost) : list ((Z * Z) * BoolVar) :=
  match boosts with
  | [] => []
  | (a, b, _) :: rest => ((a, b), k) :: z_list (S k) rest
  end.

Definition boost_z_name (t : Boost) : string := let '(a, b, _) := t in z_name a b.

Definition boost_ok (n : nat) (t : Boost) : bool :=
  let '(a, b, _) := t in in_bounds n a && in_bounds n b.

Definition after_links (n : nat) (w : World) (boosts : list Boost) : World :=
  mkWorld (mkModel (variables (model w) ++ map boost_z_name boosts)
             (constraints (model w)
              ++ all_links n (length (variables (model w))) boosts)
             (objective (model w))) (stdout w).

Lemma subscript_seq_ok (n : nat) (i : Z) (w : World) :
  in_bounds n i = true -> subscript (seq 0 n) i w = (inr (position n i), w).
Proof.
  intros H. unfold subscript. rewrite getitem_seq, (resolve_in_bounds _ _ H).
  reflexivity.
Qed.

Lemma subscript_seq_fail (n : nat) (i : Z) (w : World) :
  in_bounds n i = false -> subscript (seq 0 n) i w = (inl Py.IndexError, w).
Proof.
  intros H. unfold subscript. rewrite getitem_seq, (resolve_out_of_bounds _ _ H).
  reflexivity.
Qed.

Lemma link_ok (n : nat) (t : Boost) (w : World) :
  boost_ok n t = true ->
  link (seq 0 n) t w =
  (inr (fst (fst t), snd (fst t), length (variables (model w))), after_links n w [t]).
Proof.
  destruct t as [[a b] f]. simpl. intros H.
  apply andb_true_iff in H as [Ha Hb].
  unfold bind. unfold NewBoolVar at 1.
  unfold Add. simpl.
  repeat (rewrite subscript_seq_ok by assumption; simpl).
  unfold ret, after_links. simpl. rewrite <- !app_assoc. reflexivity.
Qed.

Lemma link_fail (n : nat) (t : Boost) (w : World) :
  boost_ok n t = false -> exists w', link (seq 0 n) t w = (inl Py.IndexError, w').
Proof.
  destruct t as [[a b] f]. simpl. intros H.
  unfold bind. unfold NewBoolVar at 1.
  destruct (in_bounds n a) eqn:Ha.
  - simpl in H. rewrite subscript_seq_ok by assumption. unfold Add at 1.
    rewrite subscript_seq_fail by assumption. eauto.
  - rewrite subscript_seq_fail by assumption. eauto.
Qed.

Lemma mapM_link_ok (n : nat) (boosts : list Boost) (w : World) :
  forallb (boost_ok n) boosts = true ->
  mapM (link (seq 0 n)) boosts w =
  (inr (z_list (length (variables (model w))) boosts), after_links n w boosts).
Proof.
  revert w. induction boosts as [|t rest IH]; intros w H; simpl.
  - unfold ret, after_links. simpl. rewrite !app_nil_r. now destruct w as [[? ? ?] ?].
  - simpl in H. apply andb_true_iff in H as [Ht Hrest].
    unfold bind at 1. rewrite (link_ok _ _ _ Ht).
    unfold bind. rewrite (IH _ Hrest).
    destruct t as [[a b] f]. unfold ret, after_links. simpl.
    rewrite length_app. simpl. rewrite Nat.add_1_r, <- !app_assoc. reflexivity.
Qed.

Lemma mapM_link_fail (n : nat) (boosts : list Boost) (w : World) :
  forallb (boost_ok n) boosts = false ->
  exists w', mapM (link (seq 0 n)) boosts w = (inl Py.IndexError, w').
Proof.
  revert w. induction boosts as [|t rest IH]; intros w H; simpl in *; [discriminate|].
  unfold bind at 1. destruct (boost_ok n t) eqn:Ht.
  - rewrite (link_ok _ _ _ Ht). simpl in H.
    destruct (IH (after_links n w [t]) H) as [w' Hw'].
    unfold bind. rewrite Hw'. eauto.
  - destruct (link_fail _ _ w Ht) as [w' Hw']. rewrite Hw'. eauto.
Qed.

(** Summands of a capacity constraint and of the objective. *)
Definition cap_terms (data : list Z) (n : nat) : list (LinearExpr Z) :=
  map (fun i => Times (nth i data 0) (Var i)) (seq 0 n).

Definition base_terms (values : list Q) : list (LinearExpr Q) :=
  map (fun i => Times (nth i values 0%Q) (Var i)) (seq 0 (length values)).

(** [values[a] * (boost - 1)] *)
Definition extra (values : list Q) (t : Boost) : Q :=
  let '(a, _, boost) := t in
  (nth (position (length values) a) values 0 * (boost - 1))%Q.

Fixpoint extra_terms (values : list Q) (k : BoolVar) (boosts : list Boost)
  : list (LinearExpr Q) :=
  match boosts with
  | [] => []
  | t :: rest => Times (extra values t) (Var k) :: extra_terms values (S k) rest
  end.

Lemma range_of_nat (n : nat) : Py.range (Z.of_nat n) = map Z.of_nat (seq 0 n).
Proof. unfold Py.range. now rewrite Nat2Z.id. Qed.

Lemma mapM_capacity_ok (data : list Z) (n : nat) (w : World) :
  (n <= length data)%nat ->
  mapM (capacity_term data (seq 0 n)) (Py.range (Z.of_nat n)) w =
  (inr (cap_terms data n), w).
Proof.
  intros Hn.
  rewrite (mapM_lift _ (fun i => match Py.getitem data i, Py.getitem (seq 0 n) i with
                                 | Some d, Some xi => Some (Times d (Var xi))
                                 | _, _ => None
                                 end)).
  - rewrite range_of_nat, traverse_map.
    rewrite (traverse_total _ (fun i => Times (nth i data 0) (Var i))); [reflexivity|].
    intros i Hi. apply in_seq in Hi.
    rewrite !getitem_of_nat.
    rewrite (nth_error_nth' data 0) by lia.
    rewrite (nth_error_nth' (seq 0 n) O) by (rewrite length_seq; lia).
    rewrite seq_nth by lia. reflexivity.
  - intros i w0. unfold capacity_term, bind, subscript, BoolVar.
    destruct (Py.getitem data i); [|reflexivity].
    destruct (Py.getitem (seq 0 n) i); reflexivity.
Qed.

Lemma mapM_capacity_fail (data : list Z) (n : nat) (w : World) :
  (length data < n)%nat ->
  mapM (capacity_term data (seq 0 n)) (Py.range (Z.of_nat n)) w =
  (inl Py.IndexError, w).
Proof.
  intros Hn.
  rewrite (mapM_lift _ (fun i => match Py.getitem data i, Py.getitem (seq 0 n) i with
                                 | Some d, Some xi => Some (Times d (Var xi))
                                 | _, _ => None
                                 end)).
  - rewrite (traverse_fails _ _ (Z.of_nat (length data))); [reflexivity| |].
    + rewrite range_of_nat. apply in_map, in_seq. lia.
    + rewrite getitem_of_nat.
      now replace (nth_error data (length data)) with (@None Z)
        by (symmetry; apply nth_error_None; lia).
  - intros i w0. unfold capacity_term, bind, subscript, BoolVar.
    destruct (Py.getitem data i); [|reflexivity].
    destruct (Py.getitem (seq 0 n) i); reflexivity.
Qed.

Lemma mapM_value_term (values : list Q) (w : World) :
  mapM (value_term values (seq 0 (length values))) (Py.range (Py.len values)) w =
  (inr (base_terms values), w).
Proof.
  rewrite (mapM_lift _ (fun i => match Py.getitem values i,
                                       Py.getitem (seq 0 (length values)) i with
                                 | Some d, Some xi => Some (Times d (Var xi))
                                 | _, _ => None
                                 end)).
  - unfold Py.len. rewrite range_of_nat, traverse_map.
    rewrite (traverse_total _ (fun i => Times (nth i values 0%Q) (Var i)));
      [reflexivity|].
    intros i Hi. apply in_seq in Hi.
    rewrite !getitem_of_nat.
    rewrite (nth_error_nth' values 0%Q) by lia.
    rewrite (nth_error_nth' (seq 0 _) O) by (rewrite length_seq; lia).
    rewrite seq_nth by lia. reflexivity.
  - intros i w0. unfold value_term, bind, subscript, BoolVar.
    destruct (Py.getitem values i); [|reflexivity].
    destruct (Py.getitem (seq 0 _) i); reflexivity.
Qed.

Lemma traverse_boost_term (values : list Q) (boosts : list Boost) (k : BoolVar) :
  forallb (boost_ok (length values)) boosts = true ->
  traverse (fun zt : (Z * Z * BoolVar) * Boost =>
              let '(((a, _), z_var), (_, _, boost)) := zt in
              match Py.getitem values a with
              | Some va => Some (Times (va * (boost - 1))%Q (Var z_var))
              | None => None
              end)
           (combine (z_list k boosts) boosts)
  = Some (extra_terms values k boosts).
Proof.
  revert k. induction boosts as [|[[a b] f] rest IH]; intros k H; simpl; [reflexivity|].
  simpl in H. apply andb_true_iff in H as [Hab Hrest].
  apply andb_true_iff in Hab as [Ha _].
  rewrite (getitem_in_bounds 0%Q _ _ Ha), (IH _ Hrest). reflexivity.
Qed.

Lemma mapM_boost_term (values : list Q) (boosts : list Boost) (k : BoolVar) (w : World) :
  forallb (boost_ok (length values)) boosts = true ->
  mapM (boost_term values) (combine (z_list k boosts) boosts) w =
  (inr (extra_terms values k boosts), w).
Proof.
  intros H.
  rewrite (mapM_lift _ (fun zt : (Z * Z * BoolVar) * Boost =>
              let '(((a, _), z_var), (_, _, boost)) := zt in
              match Py.getitem values a with
              | Some va => Some (Times (va * (boost - 1))%Q (Var z_var))
              | None => None
              end)).
  - now rewrite traverse_boost_term.
  - intros [[[a b] z_var] [[a' b'] boost]] w0.
    unfold boost_term, bind, subscript.
    destruct (Py.getitem values a); reflexivity.
Qed.

(** The comprehension that reads the selection back. *)
Definition selected_of (r : CpSolverResponse) (n : nat) : list Z :=
  filter (fun i => Py.truthy (Value r (Z.to_nat i))) (Py.range (Z.of_nat n)).

Lemma filterM_total {A : Type} (p : A -> M bool) (q : A -> bool) (l : list A) :
  (forall a w, In a l -> p a w = (inr (q a), w)) ->
  forall w, filterM p l w = (inr (filter q l), w).
Proof.
  induction l as [|a l IH]; intros H w; simpl; [reflexivity|].
  unfold bind. rewrite H by now left.
  rewrite IH by (intros; apply H; now right).
  now destruct (q a).
Qed.

Lemma filterM_is_selected (r : CpSolverResponse) (n : nat) (w : World) :
  filterM (is_selected r (seq 0 n)) (Py.range (Z.of_nat n)) w =
  (inr (selected_of r n), w).
Proof.
  apply filterM_total. intros i w0 Hi.
  rewrite range_of_nat in Hi. apply in_map_iff in Hi as (j & <- & Hj).
  apply in_seq in Hj.
  unfold is_selected, bind, subscript.
  rewrite getitem_of_nat, (nth_error_nth' (seq 0 n) O) by (rewrite length_seq; lia).
  rewrite seq_nth by lia. now rewrite Nat2Z.id.
Qed.

Lemma selected_of_in_range (r : CpSolverResponse) (n : nat) (i : Z) :
  In i (selected_of r n) -> 0 <= i < Z.of_nat n.
Proof.
  unfold selected_of. intros H. apply filter_In in H as [H _].
  rewrite range_of_nat in H. apply in_map_iff in H as (j & <- & Hj).
  apply in_seq in Hj. lia.
Qed.

Lemma mapM_subscript_ok (data : list Z) (l : list Z) (w : World) :
  (forall i, In i l -> 0 <= i < Py.len data) ->
  exists ds, mapM (subscript data) l w = (inr ds, w).
Proof.
  intros H.
  rewrite (mapM_lift _ (Py.getitem data)) by reflexivity.
  rewrite (traverse_total _ (fun i => nth (position (length data) i) data 0)).
  - eexists. reflexivity.
  - intros i Hi. apply getitem_in_bounds. specialize (H i Hi).
    unfold in_bounds, Py.len in *. lia.
Qed.

Lemma bind_ok {A B : Type} (c : M A) (k : A -> M B) (w w' : World) (a : A) :
  c w = (inr a, w') -> bind c k w = k a w'.
Proof. unfold bind. now intros ->. Qed.

Lemma bind_err {A B : Type} (c : M A) (k : A -> M B) (w w' : World) (e : Py.exn) :
  c w = (inl e, w') -> bind c k w = (inl e, w').
Proof. unfold bind. now intros ->. Qed.

Lemma length_range (n : nat) : length (Py.range (Z.of_nat n)) = n.
Proof. now rewrite range_of_nat, length_map, length_seq. Qed.

(** ** The model that a call builds, in closed form *)

(** The subscripts that the body evaluates are all defined. *)
Definition well_indexed (weights volumes : list Z) (values : list Q)
    (boosts : list Boost) : bool :=
  let n := length values in
  forallb (boost_ok n) boosts
  && (n <=? length weights)%nat && (n <=? length volumes)%nat.

Definition built_model (weights volumes : list Z) (values : list Q)
    (boosts : list Boost) (max_weight max_volume : Z) : CpModel :=
  let n := length values in
  mkModel
    (map x_name (Py.range (Py.len values)) ++ map boost_z_name boosts)
    (all_links n n boosts
     ++ [ Le (py_sum 0 (cap_terms weights n)) (Const max_weight);
          Le (py_sum 0 (cap_terms volumes n)) (Const max_volume) ])
    (Some (py_sum 0%Q (base_terms values ++ extra_terms values n boosts))).

Section Run.

Variable Solve : Q -> CpModel -> CpSolverResponse.

Variables (weights volumes : list Z) (values : list Q) (boosts : list Boost).
Variables (max_weight max_volume : Z) (time_limit_s : Q).

Let n := length values.
Let m := built_model weights volumes values boosts max_weight max_volume.
Let run :=
  knapsack_body Solve weights volumes values boosts
    max_weight max_volume time_limit_s (mkWorld new_CpModel []).

(** Every raise is an [IndexError] from a subscript; a run that raises
    nothing leaves [built_model] in the model object and asks the engine
    once, about that model. *)
Lemma knapsack_body_run :
  if well_indexed weights volumes values boosts then
    model (snd run) = m /\
    fst run =
    let r := Solve time_limit_s m in
    if has_solution (status r)
    then inr (Some (selected_of r n), Some (objective_value r))
    else inr (None, None)
  else fst run = inl Py.IndexError.
Proof.
  unfold run, knapsack_body, well_indexed.
  fold n. unfold Py.len. fold n.
  erewrite bind_ok by apply mapM_NewBoolVar.
  rewrite length_range. cbn [new_CpModel variables model length].
  destruct (forallb (boost_ok n) boosts) eqn:Hb; cbn [andb].
  2:{ edestruct mapM_link_fail as [w' Hw']; [exact Hb|].
      erewrite bind_err by apply Hw'. reflexivity. }
  erewrite bind_ok by (apply mapM_link_ok; exact Hb).
  destruct (n <=? length weights)%nat eqn:Hw; cbn [andb];
    [apply Nat.leb_le in Hw | apply Nat.leb_gt in Hw].
  2:{ erewrite bind_err by (apply mapM_capacity_fail; exact Hw). reflexivity. }
  erewrite bind_ok by (apply mapM_capacity_ok; exact Hw).
  erewrite bind_ok by reflexivity.
  destruct (n <=? length volumes)%nat eqn:Hv;
    [apply Nat.leb_le in Hv | apply Nat.leb_gt in Hv].
  2:{ erewrite bind_err by (apply mapM_capacity_fail; exact Hv). reflexivity. }
  erewrite bind_ok by (apply mapM_capacity_ok; exact Hv).
  erewrite bind_ok by reflexivity.
  erewrite bind_ok by (subst n; apply mapM_value_term).
  erewrite bind_ok.
  2:{ unfold with_variables. cbn [variables model].
      rewrite app_nil_l, length_map, length_range.
      subst n. apply mapM_boost_term. exact Hb. }
  erewrite bind_ok by reflexivity.
  erewrite bind_ok by reflexivity.
  match goal with
  | |- context [Solve time_limit_s (model ?w)] => replace w with (mkWorld m [])
  end.
  2:{ unfold m, built_model, after_links, with_variables. cbn.
      rewrite length_map, length_range, <- app_assoc. reflexivity. }
  cbn [model].
  destruct (has_solution (status (Solve time_limit_s m))); cbn [negb];
    [|split; reflexivity].
  erewrite bind_ok by apply filterM_is_selected.
  edestruct (mapM_subscript_ok weights (selected_of (Solve time_limit_s m) n))
    as [ws Hws].
  { intros i Hi. apply selected_of_in_range in Hi. unfold Py.len. lia. }
  erewrite bind_ok by apply Hws.
  edestruct (mapM_subscript_ok volumes (selected_of (Solve time_limit_s m) n))
    as [vs Hvs].
  { intros i Hi. apply selected_of_in_range in Hi. unfold Py.len. lia. }
  erewrite bind_ok by apply Hvs.
  split; reflexivity.
Qed.

Lemma knapsack_with_boosts_run :
  knapsack_with_boosts Solve weights volumes values boosts
    max_weight max_volume time_limit_s =
  if well_indexed weights volumes values boosts then
    let r := Solve time_limit_s m in
    if has_solution (status r)
    then inr (Some (selected_of r n), Some (objective_value r))
    else inr (None, None)
  else inl Py.IndexError.
Proof.
  pose proof knapsack_body_run as H. unfold knapsack_with_boosts. fold run.
  destruct (well_indexed weights volumes values boosts); [apply H | exact H].
Qed.

(** A call that returns was well indexed. *)
Lemma returned_well_indexed (res : option (list Z) * option Q) :
  knapsack_with_boosts Solve weights volumes values boosts
    max_weight max_volume time_limit_s = inr res ->
  well_indexed weights volumes values boosts = true.
Proof.
  rewrite knapsack_with_boosts_run.
  destruct (well_indexed weights volumes values boosts); [reflexivity | discriminate].
Qed.

(** A call that returns a selection returns the engine's answer. *)
Lemma returned_selection (sel : list Z) (total : Q) :
  knapsack_with_boosts Solve weights volumes values boosts
    max_weight max_volume time_limit_s = inr (Some sel, Some total) ->
  let r := Solve time_limit_s m in
  well_indexed weights volumes values boosts = true /\
  has_solution (status r) = true /\
  sel = selected_of r n /\ total = objective_value r.
Proof.
  rewrite knapsack_with_boosts_run. cbv zeta.
  destruct (well_indexed weights volumes values boosts); [|discriminate].
  destruct (has_solution (status (Solve time_limit_s m))); [|discriminate].
  intros [= -> ->]. auto.
Qed.

End Run.

(** ** Sums *)

Definition Zsum (l : list Z) : Z := fold_right Z.add 0 l.
Definition Qsum (l : list Q) : Q := fold_right Qplus 0%Q l.

(** [data[i]] as a value, with [d] where the subscript raises. *)
Definition item {A : Type} (d : A) (data : list A) (i : Z) : A :=
  nth (position (length data) i) data d.

Definition mem (i : Z) (l : list Z) : bool := existsb (Z.eqb i) l.

Lemma mem_In (i : Z) (l : list Z) : mem i l = true <-> In i l.
Proof.
  unfold mem. rewrite existsb_exists. split.
  - intros (j & Hj & E). apply Z.eqb_eq in E. now subst.
  - intros H. exists i. split; [assumption | apply Z.eqb_refl].
Qed.

Lemma position_of_nat (n i : nat) : (i < n)%nat -> position n (Z.of_nat i) = i.
Proof.
  intros H. unfold position. rewrite resolve_of_nat.
  now replace (i <? n)%nat with true by (symmetry; now apply Nat.ltb_lt).
Qed.

Lemma position_lt (n : nat) (i : Z) : in_bounds n i = true -> (position n i < n)%nat.
Proof.
  intros H. apply (resolve_lt n i). now apply resolve_in_bounds.
Qed.

Lemma position_in_range (n : nat) (i : Z) :
  0 <= i < Z.of_nat n -> Z.of_nat (position n i) = i.
Proof.
  intros H. replace i with (Z.of_nat (Z.to_nat i)) at 1 by lia.
  rewrite position_of_nat by lia. lia.
Qed.

Lemma evalZ_fold_Plus (sol : list Z) (terms : list (LinearExpr Z)) (e : LinearExpr Z) :
  evalZ sol (fold_left Plus terms e) = evalZ sol e + Zsum (map (evalZ sol) terms).
Proof.
  revert e. induction terms as [|t terms IH]; intros e; simpl; [lia|].
  rewrite IH. simpl. lia.
Qed.

Lemma evalZ_py_sum (sol : list Z) (terms : list (LinearExpr Z)) :
  evalZ sol (py_sum 0 terms) = Zsum (map (evalZ sol) terms).
Proof. unfold py_sum. rewrite evalZ_fold_Plus. reflexivity. Qed.

Lemma evalQ_fold_Plus (sol : list Z) (terms : list (LinearExpr Q)) (e : LinearExpr Q) :
  evalQ sol (fold_left Plus terms e) == evalQ sol e + Qsum (map (evalQ sol) terms).
Proof.
  revert e. induction terms as [|t terms IH]; intros e; simpl; [ring|].
  rewrite IH. simpl. ring.
Qed.

Lemma evalQ_py_sum (sol : list Z) (terms : list (LinearExpr Q)) :
  evalQ sol (py_sum 0%Q terms) == Qsum (map (evalQ sol) terms).
Proof. unfold py_sum. rewrite evalQ_fold_Plus. simpl. ring. Qed.

Lemma Qsum_app (l1 l2 : list Q) : Qsum (l1 ++ l2) == Qsum l1 + Qsum l2.
Proof.
  induction l1 as [|q l1 IH]; simpl; [ring|]. rewrite IH. ring.
Qed.

(** ** Boolean assignments *)

Definition boolean (sol : list Z) : Prop := forall i, 0 <= nth i sol 0 <= 1.

Lemma forallb_is_bool (sol : list Z) : forallb is_bool sol = true -> boolean sol.
Proof.
  intros H i. destruct (Nat.lt_ge_cases i (length sol)) as [Hi|Hi].
  - rewrite forallb_forall in H. specialize (H _ (nth_In sol 0 Hi)).
    unfold is_bool in H. lia.
  - rewrite nth_overflow by assumption. lia.
Qed.

Lemma truthy_boolean (v : Z) : 0 <= v <= 1 -> (Py.truthy v = true <-> v = 1).
Proof. unfold Py.truthy. intros H. destruct (Z.eqb_spec v 0); simpl; split; try lia; discriminate. Qed.

(** A sum weighted by a boolean assignment is the sum over the chosen
    positions. *)
Lemma Zsum_chosen (sol : list Z) (f : nat -> Z) (l : list nat) :
  boolean sol ->
  Zsum (map (fun i => f i * nth i sol 0) l) =
  Zsum (map f (filter (fun i => Py.truthy (nth i sol 0)) l)).
Proof.
  intros Hb. induction l as [|i l IH]; simpl; [reflexivity|].
  rewrite IH. specialize (Hb i). unfold Py.truthy.
  destruct (Z.eqb_spec (nth i sol 0) 0) as [E|E]; simpl.
  - rewrite E. lia.
  - replace (nth i sol 0) with 1 by lia. lia.
Qed.

Lemma Qsum_chosen (sol : list Z) (f : nat -> Q) (l : list nat) :
  boolean sol ->
  Qsum (map (fun i => (f i * inject_Z (nth i sol 0%Z))%Q) l) ==
  Qsum (map f (filter (fun i => Py.truthy (nth i sol 0)) l)).
Proof.
  intros Hb. induction l as [|i l IH]; simpl; [reflexivity|].
  rewrite IH. specialize (Hb i). unfold Py.truthy.
  destruct (Z.eqb_spec (nth i sol 0) 0) as [E|E]; simpl.
  - rewrite E. ring.
  - replace (nth i sol 0) with 1 by lia. ring.
Qed.

Lemma filter_map_comm {A B : Type} (p : B -> bool) (g : A -> B) (l : list A) :
  filter p (map g l) = map g (filter (fun a => p (g a)) l).
Proof.
  induction l as [|a l IH]; simpl; [reflexivity|].
  rewrite IH. now destruct (p (g a)).
Qed.

Definition chosen (sol : list Z) (n : nat) : list nat :=
  filter (fun i => Py.truthy (nth i sol 0)) (seq 0 n).

Lemma selected_of_chosen (r : CpSolverResponse) (n : nat) :
  selected_of r n = map Z.of_nat (chosen (solution r) n).
Proof.
  unfold selected_of, chosen. rewrite range_of_nat, filter_map_comm.
  f_equal. apply filter_ext. intros i. unfold Value. now rewrite Nat2Z.id.
Qed.

Lemma chosen_In (sol : list Z) (n i : nat) :
  In i (chosen sol n) <-> (i < n)%nat /\ Py.truthy (nth i sol 0) = true.
Proof.
  unfold chosen. rewrite filter_In, in_seq. intuition lia.
Qed.

Lemma mem_selected_of (r : CpSolverResponse) (n i : nat) :
  (i < n)%nat ->
  mem (Z.of_nat i) (selected_of r n) = Py.truthy (Value r i).
Proof.
  intros Hi. apply eq_true_iff_eq. rewrite mem_In, selected_of_chosen, in_map_iff.
  unfold Value. split.
  - intros (j & E & Hj). apply Nat2Z.inj in E. subst j. now apply chosen_In in Hj.
  - intros H. exists i. split; [reflexivity|]. now apply chosen_In.
Qed.

(** ** What feasibility of the built model means *)

Definition both_chosen (sol : list Z) (n : nat) (t : Boost) : bool :=
  let '(a, b, _) := t in
  Py.truthy (nth (position n a) sol 0) && Py.truthy (nth (position n b) sol 0).

Lemma link_constraints_product (sol : list Z) (n : nat) (k : BoolVar) (a b : Z) (f : Q) :
  boolean sol ->
  (forallb (holdsb sol) (link_constraints n k (a, b, f)) = true <->
   nth k sol 0 = nth (position n a) sol 0 * nth (position n b) sol 0).
Proof.
  intros Hb. simpl.
  pose proof (Hb k). pose proof (Hb (position n a)). pose proof (Hb (position n b)).
  rewrite !andb_true_iff, !Z.leb_le, Z.geb_le. nia.
Qed.

Lemma all_links_app (n : nat) (k : BoolVar) (l1 l2 : list Boost) :
  all_links n k (l1 ++ l2) = all_links n k l1 ++ all_links n (k + length l1)%nat l2.
Proof.
  revert k. induction l1 as [|t l1 IH]; intros k; simpl.
  - now rewrite Nat.add_0_r.
  - rewrite IH, <- app_assoc. now rewrite Nat.add_succ_r.
Qed.

Lemma extra_terms_app (values : list Q) (k : BoolVar) (l1 l2 : list Boost) :
  extra_terms values k (l1 ++ l2) =
  extra_terms values k l1 ++ extra_terms values (k + length l1)%nat l2.
Proof.
  revert k. induction l1 as [|t l1 IH]; intros k; simpl.
  - now rewrite Nat.add_0_r.
  - rewrite IH. now rewrite Nat.add_succ_r.
Qed.

(** Under the linking constraints the boost part of the objective is the sum
    of the extras of the boosts whose two items are chosen. *)
Lemma extra_terms_chosen (sol : list Z) (values : list Q) (n : nat) (boosts : list Boost)
    (k : BoolVar) :
  boolean sol ->
  forallb (holdsb sol) (all_links n k boosts) = true ->
  Qsum (map (evalQ sol) (extra_terms values k boosts)) ==
  Qsum (map (extra values) (filter (both_chosen sol n) boosts)).
Proof.
  intros Hb. revert k. induction boosts as [|[[a b] f] rest IH]; intros k H.
  - reflexivity.
  - cbn [all_links] in H. rewrite forallb_app in H.
    apply andb_true_iff in H as [Hk Hrest].
    apply (link_constraints_product sol n k a b f Hb) in Hk.
    cbn [extra_terms map Qsum fold_right filter evalQ].
    fold (Qsum (map (evalQ sol) (extra_terms values (S k) rest))).
    rewrite (IH _ Hrest), Hk. unfold both_chosen at 2, Py.truthy.
    pose proof (Hb (position n a)) as Ha. pose proof (Hb (position n b)) as Hb'.
    destruct (Z.eqb_spec (nth (position n a) sol 0) 0) as [Ea|Ea];
      destruct (Z.eqb_spec (nth (position n b) sol 0) 0) as [Eb|Eb]; cbn [negb andb map Qsum fold_right].
    + rewrite Ea, Eb. fold (Qsum (map (extra values) (filter (both_chosen sol n) rest))).
      rewrite Z.mul_0_l. ring.
    + rewrite Ea. fold (Qsum (map (extra values) (filter (both_chosen sol n) rest))).
      rewrite Z.mul_0_l. ring.
    + rewrite Eb. fold (Qsum (map (extra values) (filter (both_chosen sol n) rest))).
      rewrite Z.mul_0_r. ring.
    + replace (nth (position n a) sol 0) with 1 by lia.
      replace (nth (position n b) sol 0) with 1 by lia.
      fold (Qsum (map (extra values) (filter (both_chosen sol n) rest))).
      rewrite Z.mul_1_l. ring.
Qed.

Section BuiltModel.

Variables (weights volumes : list Z) (values : list Q) (boosts : list Boost).
Variables (max_weight max_volume : Z).

Let n := length values.
Let m := built_model weights volumes values boosts max_weight max_volume.

Definition weighted (data : list Z) (sol : list Z) : Z :=
  Zsum (map (fun i => nth i data 0 * nth i sol 0) (seq 0 (length values))).

Lemma evalZ_cap_terms (data sol : list Z) :
  evalZ sol (py_sum 0 (cap_terms data n)) = weighted data sol.
Proof.
  rewrite evalZ_py_sum. unfold cap_terms, weighted. now rewrite map_map.
Qed.

Lemma feasibleb_built (sol : list Z) :
  feasibleb m sol = true <->
  length sol = (n + length boosts)%nat /\
  forallb is_bool sol = true /\
  forallb (holdsb sol) (all_links n n boosts) = true /\
  weighted weights sol <= max_weight /\
  weighted volumes sol <= max_volume.
Proof.
  unfold feasibleb, m, built_model. cbn [variables constraints].
  rewrite length_app, !length_map. unfold Py.len. rewrite length_range.
  rewrite forallb_app. cbn [forallb holdsb].
  rewrite !evalZ_cap_terms. cbn [evalZ].
  rewrite !andb_true_iff, Nat.eqb_eq, !Z.leb_le. fold n. tauto.
Qed.

Lemma objective_at_built (sol : list Z) :
  objective_at m sol ==
  Qsum (map (fun i => (nth i values 0 * inject_Z (nth i sol 0%Z))%Q) (seq 0 n))
  + Qsum (map (evalQ sol) (extra_terms values n boosts)).
Proof.
  unfold objective_at, m, built_model. cbn [objective].
  rewrite evalQ_py_sum, map_app, Qsum_app. unfold base_terms.
  rewrite map_map. reflexivity.
Qed.

(** The objective at a feasible assignment, read off the chosen items. *)
Lemma objective_at_feasible (sol : list Z) :
  feasibleb m sol = true ->
  objective_at m sol ==
  Qsum (map (fun i => nth i values 0%Q) (chosen sol n))
  + Qsum (map (extra values) (filter (both_chosen sol n) boosts)).
Proof.
  intros H. apply feasibleb_built in H as (_ & Hb & Hl & _).
  apply forallb_is_bool in Hb.
  rewrite objective_at_built, (Qsum_chosen sol _ _ Hb).
  rewrite (extra_terms_chosen sol values n boosts n Hb Hl). reflexivity.
Qed.

Lemma weighted_chosen (data sol : list Z) :
  boolean sol ->
  weighted data sol = Zsum (map (fun i => nth i data 0) (chosen sol n)).
Proof. intros Hb. unfold weighted. now rewrite (Zsum_chosen sol _ _ Hb). Qed.

End BuiltModel.

(** ** The reference engines meet the contract *)

Lemma all_assignments_complete (sol : list Z) :
  forallb is_bool sol = true -> In sol (all_assignments (length sol)).
Proof.
  induction sol as [|v sol IH]; simpl; intros H; [now left|].
  apply andb_true_iff in H as [Hv Hs].
  apply in_flat_map. exists sol. split; [now apply IH|].
  unfold is_bool in Hv. assert (v = 0 \/ v = 1) as [-> | ->] by lia; simpl; tauto.
Qed.

Lemma keep_better_cases (m : CpModel) (best : option (list Z)) (sol : list Z) :
  (forall b, best = Some b -> feasibleb m b = true) ->
  (feasibleb m sol = false /\ keep_better m best sol = best) \/
  (feasibleb m sol = true /\
   exists s, keep_better m best sol = Some s /\ feasibleb m s = true /\
             (objective_at m sol <= objective_at m s)%Q /\
             (forall b, best = Some b -> (objective_at m b <= objective_at m s)%Q)).
Proof.
  intros Hbest. unfold keep_better.
  destruct (feasibleb m sol) eqn:F; [right | left; now split].
  split; [reflexivity|].
  destruct best as [b|].
  - destruct (Qle_bool (objective_at m sol) (objective_at m b)) eqn:E.
    + exists b. apply Qle_bool_iff in E. repeat split; auto.
      intros b' [= <-]. apply Qle_refl.
    + exists sol. repeat split; auto using Qle_refl.
      intros b' [= <-]. apply Qlt_le_weak, Qnot_le_lt.
      intros C. apply Qle_bool_iff in C. congruence.
  - exists sol. repeat split; auto using Qle_refl. discriminate.
Qed.

Lemma keep_better_fold (m : CpModel) (l : list (list Z)) (best : option (list Z)) :
  (forall b, best = Some b -> feasibleb m b = true) ->
  match fold_left (keep_better m) l best with
  | Some s =>
      feasibleb m s = true /\
      (forall b, best = Some b -> (objective_at m b <= objective_at m s)%Q) /\
      (forall sol, In sol l -> feasibleb m sol = true ->
                   (objective_at m sol <= objective_at m s)%Q)
  | None => best = None /\ forall sol, In sol l -> feasibleb m sol = false
  end.
Proof.
  revert best. induction l as [|a l IH]; intros best Hbest; simpl.
  - destruct best as [b|].
    + repeat split; auto.
      * intros b' [= <-]. apply Qle_refl.
      * tauto.
    + split; [reflexivity | tauto].
  - destruct (keep_better_cases m best a Hbest) as [[Fa E] | [Fa (s0 & E & Fs0 & Ha & Hb)]].
    + rewrite E. specialize (IH best Hbest).
      destruct (fold_left (keep_better m) l best) as [s|].
      * destruct IH as (Fs & Hs1 & Hs2). repeat split; auto.
        intros sol [<- | Hin] Fsol; [congruence | auto].
      * destruct IH as (-> & Hn). split; [reflexivity|].
        intros sol [<- | Hin]; auto.
    + rewrite E.
      assert (Hs0 : forall b, Some s0 = Some b -> feasibleb m b = true)
        by (intros b [= <-]; exact Fs0).
      specialize (IH (Some s0) Hs0).
      destruct (fold_left (keep_better m) l (Some s0)) as [s|].
      * destruct IH as (Fs & Hs1 & Hs2). specialize (Hs1 s0 eq_refl).
        repeat split; auto.
        -- intros b Eb. eapply Qle_trans; [apply (Hb b Eb) | exact Hs1].
        -- intros sol [<- | Hin] Fsol; [eapply Qle_trans; eassumption | auto].
      * destruct IH as (C & _). discriminate.
Qed.

Lemma exhaustive_Solve_sound (t : Q) (m : CpModel) :
  sound_response m (exhaustive_Solve t m).
Proof.
  unfold sound_response, exhaustive_Solve.
  pose proof (keep_better_fold m (all_assignments (length (variables m))) None) as H.
  destruct (fold_left _ _ None) as [s|]; simpl.
  - intros _. destruct H as (Fs & _); [discriminate|]. split; [exact Fs | reflexivity].
  - discriminate.
Qed.

(** When the exhaustive engine answers [OPTIMAL], its objective value is
    the optimum of the model. *)
Lemma exhaustive_optimum (t : Q) (m : CpModel) :
  status (exhaustive_Solve t m) = OPTIMAL ->
  optimum_of m (objective_value (exhaustive_Solve t m)).
Proof.
  unfold exhaustive_Solve.
  pose proof (keep_better_fold m (all_assignments (length (variables m))) None) as H.
  destruct (fold_left _ _ None) as [s|]; simpl; [|discriminate].
  intros _. destruct H as (Fs & _ & Hmax); [discriminate|].
  split.
  - exists s. split; [exact Fs | reflexivity].
  - intros sol Fsol. apply Hmax; [|exact Fsol].
    unfold feasibleb in Fsol. rewrite !andb_true_iff in Fsol.
    destruct Fsol as [[L B] _]. apply Nat.eqb_eq in L. rewrite <- L.
    now apply all_assignments_complete.
Qed.

Lemma exhaustive_optimum_value (t : Q) (m : CpModel) (v : Q) :
  status (exhaustive_Solve t m) = OPTIMAL ->
  objective_value (exhaustive_Solve t m) = v ->
  optimum_of m v.
Proof. intros H <-. now apply exhaustive_optimum. Qed.

(** ** Reading the selection back *)

Lemma item_of_nat {A : Type} (d : A) (data : list A) (i : nat) :
  (i < length data)%nat -> item d data (Z.of_nat i) = nth i data d.
Proof. intros H. unfold item. now rewrite position_of_nat. Qed.

Lemma map_item_chosen {A : Type} (d : A) (data : list A) (sol : list Z) (n : nat) :
  (n <= length data)%nat ->
  map (item d data) (map Z.of_nat (chosen sol n)) =
  map (fun i => nth i data d) (chosen sol n).
Proof.
  intros Hn. rewrite map_map. apply map_ext_in. intros i Hi.
  apply chosen_In in Hi. apply item_of_nat. lia.
Qed.

(** The returned list holds the items of every boost that the assignment
    chooses, once the boost's subscripts are resolved. *)
Definition both_selected (n : nat) (sel : list Z) (t : Boost) : bool :=
  let '(a, b, _) := t in
  mem (Z.of_nat (position n a)) sel && mem (Z.of_nat (position n b)) sel.

(** The test in the words of the specification: both endpoints, as written
    in the triplet, occur in the returned list. *)
Definition both_listed (sel : list Z) (t : Boost) : bool :=
  let '(a, b, _) := t in mem a sel && mem b sel.

(** The total recomputed from a returned selection: the values of the
    selected items plus the extras of the [active] boosts. *)
Definition recomputed (active : Boost -> bool) (values : list Q)
    (boosts : list Boost) (sel : list Z) : Q :=
  (Qsum (map (item 0 values) sel) + Qsum (map (extra values) (filter active boosts)))%Q.

Lemma both_selected_chosen (r : CpSolverResponse) (n : nat) (boosts : list Boost) :
  forallb (boost_ok n) boosts = true ->
  filter (both_selected n (selected_of r n)) boosts =
  filter (both_chosen (solution r) n) boosts.
Proof.
  intros H. apply filter_ext_in. intros [[a b] f] Hin.
  rewrite forallb_forall in H. specialize (H _ Hin). simpl in H.
  apply andb_true_iff in H as [Ha Hb].
  unfold both_selected, both_chosen.
  rewrite !mem_selected_of by (now apply position_lt). reflexivity.
Qed.

Lemma both_listed_selected (n : nat) (sel : list Z) (boosts : list Boost) :
  Forall (fun t : Boost => 0 <= fst (fst t) < Z.of_nat n /\ 0 <= snd (fst t) < Z.of_nat n)
         boosts ->
  filter (both_listed sel) boosts = filter (both_selected n sel) boosts.
Proof.
  intros H. apply filter_ext_in. intros [[a b] f] Hin.
  rewrite Forall_forall in H. specialize (H _ Hin). simpl in H.
  unfold both_listed, both_selected.
  now rewrite !position_in_range by tauto.
Qed.

Lemma well_indexed_parts (weights volumes : list Z) (values : list Q)
    (boosts : list Boost) :
  well_indexed weights volumes values boosts = true ->
  forallb (boost_ok (length values)) boosts = true /\
  (length values <= length weights)%nat /\ (length values <= length volumes)%nat.
Proof.
  unfold well_indexed. rewrite !andb_true_iff, !Nat.leb_le. tauto.
Qed.

Lemma StronglySorted_filter {A : Type} (R : A -> A -> Prop) (p : A -> bool) (l : list A) :
  StronglySorted R l -> StronglySorted R (filter p l).
Proof.
  induction 1 as [|a l Hs IH Hall]; simpl; [constructor|].
  destruct (p a); [|exact IH].
  constructor; [exact IH|].
  rewrite Forall_forall in *. intros x Hx. apply filter_In in Hx. now apply Hall.
Qed.

Lemma StronglySorted_range_from (k len : nat) :
  StronglySorted Z.lt (map Z.of_nat (seq k len)).
Proof.
  revert k. induction len as [|len IH]; intros k; simpl; constructor.
  - apply IH.
  - rewrite Forall_forall. intros x Hx. apply in_map_iff in Hx as (j & <- & Hj).
    apply in_seq in Hj. lia.
Qed.

Lemma StronglySorted_lt_NoDup (l : list Z) : StronglySorted Z.lt l -> NoDup l.
Proof.
  induction 1 as [|a l Hs IH Hall]; constructor; [|exact IH].
  intros Hin. rewrite Forall_forall in Hall. specialize (Hall _ Hin). lia.
Qed.

(** ** Properties of a call, for any engine that meets the contract *)

Section Contract.

Variable Solve : Q -> CpModel -> CpSolverResponse.
Hypothesis Solve_sound : forall t m, sound_response m (Solve t m).

Variables (weights volumes : list Z) (values : list Q) (boosts : list Boost).
Variables (max_weight max_volume : Z) (time_limit_s : Q).

Let n := length values.
Let m := built_model weights volumes values boosts max_weight max_volume.
Let r := Solve time_limit_s m.
Let call :=
  knapsack_with_boosts Solve weights volumes values boosts
    max_weight max_volume time_limit_s.

Lemma returned_feasible (sel : list Z) (total : Q) :
  call = inr (Some sel, Some total) ->
  well_indexed weights volumes values boosts = true /\
  feasibleb m (solution r) = true /\
  total == objective_at m (solution r) /\
  sel = map Z.of_nat (chosen (solution r) n).
Proof.
  intros H. apply returned_selection in H. cbv zeta in H.
  fold m r n in H. destruct H as (Hwi & Hs & -> & ->).
  destruct (Solve_sound time_limit_s m Hs) as [F O]. fold r in F, O.
  repeat split; auto. apply selected_of_chosen.
Qed.

(** The reported total, read off the chosen items and boosts. *)
Lemma returned_total (sel : list Z) (total : Q) :
  call = inr (Some sel, Some total) ->
  total == recomputed (both_selected n sel) values boosts sel.
Proof.
  intros H. destruct (returned_feasible _ _ H) as (Hwi & F & O & Hsel).
  apply well_indexed_parts in Hwi as (Hb & _ & _).
  rewrite O. unfold m. rewrite (objective_at_feasible _ _ _ _ _ _ _ F).
  unfold recomputed. fold n.
  rewrite Hsel at 1. rewrite (map_item_chosen 0%Q values _ n) by (unfold n; lia).
  rewrite Hsel, <- selected_of_chosen. fold r.
  rewrite (both_selected_chosen r n boosts Hb). reflexivity.
Qed.

(** C1 (as amended).  For every input and every returned selection, the
    reported [total_value] equals the sum of [values[i]] over the selected
    indices plus the sum of [values[a] * (factor - 1)] over exactly those
    boost triplets [(a, b, factor)] whose endpoints, resolved as the list
    subscripts [x[a]] and [x[b]] that the code evaluates (a negative [a] in
    [[-n, 0)] denotes item [n + a]), are both selected.  Floats are exact
    rationals here, so the recomputation agrees exactly. *)
Theorem total_value_recomputed (sel : list Z) (total : Q) :
  call = inr (Some sel, Some total) ->
  total == recomputed (both_selected (length values) sel) values boosts sel.
Proof. exact (returned_total sel total). Qed.

(** For boosts whose endpoints lie in [[0, n)] the resolved endpoints are
    the written ones, and the recomputation is the one of the
    specification. *)
Lemma total_value_recomputed_in_range (sel : list Z) (total : Q) :
  Forall (fun t : Boost => 0 <= fst (fst t) < Z.of_nat n /\ 0 <= snd (fst t) < Z.of_nat n)
         boosts ->
  call = inr (Some sel, Some total) ->
  total == recomputed (both_listed sel) values boosts sel.
Proof.
  intros Hr H. rewrite (returned_total _ _ H). unfold recomputed.
  now rewrite (both_listed_selected n sel boosts Hr).
Qed.

Lemma returned_within_capacity (sel : list Z) (total : Q) :
  call = inr (Some sel, Some total) ->
  Zsum (map (item 0 weights) sel) <= max_weight /\
  Zsum (map (item 0 volumes) sel) <= max_volume.
Proof.
  intros H. destruct (returned_feasible _ _ H) as (Hwi & F & _ & ->).
  apply well_indexed_parts in Hwi as (_ & Hw & Hv).
  apply feasibleb_built in F as (_ & Hb & _ & Cw & Cv).
  apply forallb_is_bool in Hb.
  rewrite (weighted_chosen values weights _ Hb) in Cw.
  rewrite (weighted_chosen values volumes _ Hb) in Cv.
  rewrite !map_item_chosen by assumption. auto.
Qed.

(** C3.  Every returned selection satisfies both capacity constraints: the
    weights of the selected items sum to at most [max_weight] and their
    volumes to at most [max_volume].  (Non-negativity of the data is not
    needed.) *)
Theorem capacity_respected (sel : list Z) (total : Q) :
  call = inr (Some sel, Some total) ->
  Zsum (map (item 0 weights) sel) <= max_weight /\
  Zsum (map (item 0 volumes) sel) <= max_volume.
Proof. exact (returned_within_capacity sel total). Qed.

(** C5.  Once the model is built (no subscript raised), a solver status that
    is neither [OPTIMAL] nor [FEASIBLE] makes the call return
    [(None, None)]: it does not raise and it reports no selection. *)
Theorem no_solution_returns_absent :
  well_indexed weights volumes values boosts = true ->
  status r <> OPTIMAL -> status r <> FEASIBLE ->
  call = inr (None, None).
Proof.
  intros Hwi Ho Hf. unfold call. rewrite knapsack_with_boosts_run, Hwi.
  cbv zeta. fold m r.
  destruct (status r); try reflexivity; congruence.
Qed.

(** C8.  Once the model is built, a solver status [FEASIBLE] or [OPTIMAL]
    makes the call return the engine's objective value together with the
    list of exactly the indices [i] in [[0, n)] with [x[i]] equal to 1 in
    the solved assignment, in strictly ascending order and hence without
    duplicates. *)
Theorem selected_indices_exact :
  well_indexed weights volumes values boosts = true ->
  has_solution (status r) = true ->
  exists sel,
    call = inr (Some sel, Some (objective_value r)) /\
    (forall i, In i sel <-> 0 <= i < Py.len values /\ Value r (Z.to_nat i) = 1) /\
    StronglySorted Z.lt sel /\ NoDup sel.
Proof.
  intros Hwi Hs. exists (selected_of r n).
  assert (Hsorted : StronglySorted Z.lt (selected_of r n)).
  { unfold selected_of. apply StronglySorted_filter.
    rewrite range_of_nat. apply StronglySorted_range_from. }
  repeat split.
  - unfold call. rewrite knapsack_with_boosts_run, Hwi. cbv zeta. fold m r.
    now rewrite Hs.
  - apply selected_of_in_range in H. lia.
  - apply selected_of_in_range in H. unfold Py.len. fold n. lia.
  - destruct (Solve_sound time_limit_s m Hs) as [F _]. fold r in F.
    apply feasibleb_built in F as (_ & Hb & _). apply forallb_is_bool in Hb.
    unfold selected_of in H. apply filter_In in H as [_ H].
    apply truthy_boolean in H; [exact H | apply Hb].
  - intros [Hi Hv]. unfold selected_of. apply filter_In. split.
    + rewrite range_of_nat. apply in_map_iff. exists (Z.to_nat i).
      unfold Py.len in Hi. fold n in Hi. split; [lia | apply in_seq; lia].
    + rewrite Hv. reflexivity.
  - exact Hsorted.
  - now apply StronglySorted_lt_NoDup.
Qed.

End Contract.

(** ** The linking constraints *)

(** C2.  The loop body [link] adds, for a boost [(a, b, _)] with new
    variable [z_var], exactly the three constraints [z <= x[a]],
    [z <= x[b]] and [z >= x[a] + x[b] - 1]; in every boolean assignment
    that satisfies them, [z] is 1 if and only if [x[a]] and [x[b]] are both
    1, and [z] is 0 otherwise. *)
Theorem linking_forces_conjunction
    (x : list BoolVar) (a b : Z) (f : Q) (w w' : World)
    (ab : Z * Z) (z_var xa xb : BoolVar) (cs : list Constraint) (sol : list Z) :
  link x (a, b, f) w = (inr (ab, z_var), w') ->
  constraints (model w') = constraints (model w) ++ cs ->
  Py.getitem x a = Some xa ->
  Py.getitem x b = Some xb ->
  boolean sol ->
  forallb (holdsb sol) cs = true ->
  cs = [ Le (Var z_var) (Var xa);
         Le (Var z_var) (Var xb);
         Ge (Var z_var) (Minus (Plus (Var xa) (Var xb)) (Const 1)) ] /\
  (nth z_var sol 0 = 1 <-> nth xa sol 0 = 1 /\ nth xb sol 0 = 1) /\
  (~ (nth xa sol 0 = 1 /\ nth xb sol 0 = 1) -> nth z_var sol 0 = 0).
Proof.
  intros Hrun Hcs Ha Hb Hbool Hsat.
  unfold link, bind, NewBoolVar, subscript, BoolVar in Hrun.
  unfold BoolVar in Ha, Hb. rewrite Ha, Hb in Hrun.
  unfold Add, ret in Hrun. cbn in Hrun.
  injection Hrun as _ Hz Hw'. subst w' z_var. cbn in Hcs.
  rewrite <- !app_assoc in Hcs. apply app_inv_head in Hcs. cbn in Hcs. subst cs.
  split; [reflexivity|].
  cbn in Hsat. rewrite !andb_true_iff, !Z.leb_le, Z.geb_le in Hsat.
  pose proof (Hbool (length (variables (model w)))).
  pose proof (Hbool xa). pose proof (Hbool xb). lia.
Qed.

(** ** What makes a call raise *)










(** ** The standard 0/1 knapsack *)

(** Following the specification's words: the standard 0/1 knapsack with two
    capacity constraints chooses [x_i] in {0, 1} for each of the [n] items,
    subject to [sum_i weight_i * x_i <= max_weight] and
    [sum_i volume_i * x_i <= max_volume], and maximizes
    [sum_i value_i * x_i]. *)
Fixpoint dotZ (ws xs : list Z) : Z :=
  match ws, xs with
  | w :: ws', x :: xs' => w * x + dotZ ws' xs'
  | _, _ => 0
  end.


Definition standard_feasible (weights volumes : list Z) (n : nat)
    (max_weight max_volume : Z) (x : list Z) : Prop :=
  length x = n /\
  Forall (fun v => v = 0 \/ v = 1) x /\
  dotZ weights x <= max_weight /\
  dotZ volumes x <= max_volume.


Lemma Zsum_seq_shift (g : nat -> Z) (k : nat) :
  Zsum (map g (seq 1 k)) = Zsum (map (fun i => g (S i)) (seq 0 k)).
Proof. now rewrite <- seq_shift, map_map. Qed.


Lemma weighted_dotZ (data x : list Z) (n : nat) :
  length x = n -> (n <= length data)%nat ->
  Zsum (map (fun i => nth i data 0 * nth i x 0) (seq 0 n)) = dotZ data x.
Proof.
  revert data n. induction x as [|v x IH]; intros data n Hl Hn; simpl in Hl; subst n.
  - now destruct data.
  - destruct data as [|d data]; simpl in Hn; [lia|].
    cbn [seq map Zsum fold_right dotZ nth].
    change (fold_right Z.add 0 ?l) with (Zsum l).
    rewrite Zsum_seq_shift. cbn [nth].
    rewrite (IH data (length x)); [reflexivity | reflexivity | lia].
Qed.

Lemma Qsum_zero (l : list nat) (g : nat -> Q) :
  (forall i, g i == 0) -> Qsum (map g l) == 0.
Proof.
  intros H. induction l as [|i l IH]; simpl; [reflexivity|].
  rewrite IH, H. ring.
Qed.


Lemma is_bool_iff (v : Z) : is_bool v = true <-> v = 0 \/ v = 1.
Proof. unfold is_bool. lia. Qed.

Lemma forallb_is_bool_Forall (x : list Z) :
  forallb is_bool x = true <-> Forall (fun v => v = 0 \/ v = 1) x.
Proof.
  rewrite forallb_forall, Forall_forall.
  split; intros H v Hv; apply is_bool_iff, H, Hv.
Qed.

Lemma Zsum_nonneg_zero (l : list Z) :
  (forall v, In v l -> 0 <= v) -> Zsum l <= 0 -> forall v, In v l -> v = 0.
Proof.
  induction l as [|u l IH]; simpl; [tauto|].
  intros Hpos Hsum v Hv.
  assert (0 <= u) by (apply Hpos; now left).
  assert (0 <= Zsum l).
  { clear -Hpos. induction l as [|u' l IH]; simpl; [lia|].
    assert (0 <= u') by (apply Hpos; right; now left).
    assert (0 <= Zsum l) by (apply IH; intros; apply Hpos; simpl in *; tauto).
    unfold Zsum in *. lia. }
  unfold Zsum in *. destruct Hv as [<- | Hv]; [lia|].
  apply IH; auto. lia.
Qed.

(** ** Boundary cases *)

Lemma run_returned (Solve : Q -> CpModel -> CpSolverResponse)
    (weights volumes : list Z) (values : list Q) (boosts : list Boost)
    (max_weight max_volume : Z) (time_limit_s : Q)
    (res : option (list Z) * option Q) (w' : World) :
  knapsack_body Solve weights volumes values boosts max_weight max_volume
    time_limit_s (mkWorld new_CpModel []) = (inr res, w') ->
  well_indexed weights volumes values boosts = true /\
  model w' = built_model weights volumes values boosts max_weight max_volume /\
  knapsack_with_boosts Solve weights volumes values boosts max_weight max_volume
    time_limit_s = inr res.
Proof.
  intros H.
  pose proof (knapsack_body_run Solve weights volumes values boosts
                max_weight max_volume time_limit_s) as R.
  cbv zeta in R. rewrite H in R. cbn [fst snd] in R.
  unfold knapsack_with_boosts. rewrite H. cbn [fst].
  destruct (well_indexed weights volumes values boosts); [|discriminate].
  destruct R as [Hm _]. auto.
Qed.

Lemma filter_none {A : Type} (p : A -> bool) (l : list A) :
  (forall a, In a l -> p a = false) -> filter p l = [].
Proof.
  induction l as [|a l IH]; intros H; simpl; [reflexivity|].
  rewrite (H a) by now left. apply IH. intros; apply H; now right.
Qed.

Lemma item_nonneg (data : list Z) (i : Z) :
  (forall d, In d data -> 0 <= d) -> 0 <= item 0 data i.
Proof.
  intros H. unfold item.
  destruct (nth_in_or_default (position (length data) i) data 0) as [Hin | ->];
    [now apply H | lia].
Qed.

Section Boundaries.

Variable Solve : Q -> CpModel -> CpSolverResponse.
Hypothesis Solve_sound : forall t m, sound_response m (Solve t m).

Variables (weights volumes : list Z) (values : list Q).
Variables (max_weight max_volume : Z) (time_limit_s : Q).


Variable boosts : list Boost.

Let call :=
  knapsack_with_boosts Solve weights volumes values boosts
    max_weight max_volume time_limit_s.

(** C7 (as amended).  With non-negative weights and volumes, a returned
    selection holds only items of weight 0 when [max_weight = 0], and only
    items of volume 0 when [max_volume = 0]; and when no item is selected
    the reported total is 0. *)
Theorem zero_capacity_selection (sel : list Z) (total : Q) :
  (forall w, In w weights -> 0 <= w) ->
  (forall v, In v volumes -> 0 <= v) ->
  call = inr (Some sel, Some total) ->
  (max_weight = 0 -> forall i, In i sel -> item 0 weights i = 0) /\
  (max_volume = 0 -> forall i, In i sel -> item 0 volumes i = 0) /\
  (sel = [] -> total == 0).
Proof.
  intros Hw Hv H.
  destruct (returned_within_capacity Solve Solve_sound _ _ _ _ _ _ _ _ _ H) as [Cw Cv].
  split; [|split].
  - intros -> i Hi.
    apply (Zsum_nonneg_zero (map (item 0 weights) sel)); [|exact Cw|now apply in_map].
    intros v Hin. apply in_map_iff in Hin as (j & <- & _). now apply item_nonneg.
  - intros -> i Hi.
    apply (Zsum_nonneg_zero (map (item 0 volumes) sel)); [|exact Cv|now apply in_map].
    intros v Hin. apply in_map_iff in Hin as (j & <- & _). now apply item_nonneg.
  - intros ->.
    rewrite (returned_total Solve Solve_sound _ _ _ _ _ _ _ _ _ H).
    unfold recomputed. rewrite filter_none by (now intros [[a b] f] _).
    cbn. reflexivity.
Qed.

End Boundaries.

(** ** The empty selection *)

Lemma all_links_zero (sol : list Z) (n : nat) (k : BoolVar) (boosts : list Boost) :
  (forall i, nth i sol 0 = 0) ->
  forallb (holdsb sol) (all_links n k boosts) = true.
Proof.
  intros H. revert k. induction boosts as [|[[a b] f] rest IH]; intros k; [reflexivity|].
  cbn [all_links link_constraints app forallb holdsb evalZ].
  rewrite !H, IH. reflexivity.
Qed.

Lemma extra_terms_zero (sol : list Z) (values : list Q) (k : BoolVar)
    (boosts : list Boost) :
  (forall i, nth i sol 0 = 0) ->
  Qsum (map (evalQ sol) (extra_terms values k boosts)) == 0.
Proof.
  intros H. revert k. induction boosts as [|t rest IH]; intros k; [reflexivity|].
  cbn [extra_terms map Qsum fold_right evalQ].
  change (fold_right Qplus 0%Q ?l) with (Qsum l).
  rewrite IH, H. ring.
Qed.

Lemma Zsum_zero (l : list nat) (g : nat -> Z) :
  (forall i, g i = 0) -> Zsum (map g l) = 0.
Proof.
  intros H. induction l as [|i l IH]; [reflexivity|].
  cbn [map Zsum fold_right]. change (fold_right Z.add 0 ?l') with (Zsum l').
  rewrite IH, H. reflexivity.
Qed.

Lemma forallb_is_bool_repeat (k : nat) : forallb is_bool (repeat 0 k) = true.
Proof. induction k; simpl; auto. Qed.

(** The all-zero assignment fits the built model when the capacities are
    not negative, and its objective is 0. *)
Lemma empty_selection_feasible (weights volumes : list Z) (values : list Q)
    (boosts : list Boost) (max_weight max_volume : Z) :
  0 <= max_weight -> 0 <= max_volume ->
  let m := built_model weights volumes values boosts max_weight max_volume in
  let zeros := repeat 0 (length values + length boosts) in
  feasibleb m zeros = true /\ objective_at m zeros == 0.
Proof.
  intros Hw Hv m zeros.
  assert (Hz : forall i, nth i zeros 0 = 0) by (intros i; apply nth_repeat).
  split.
  - apply feasibleb_built. repeat split.
    + apply repeat_length.
    + apply forallb_is_bool_repeat.
    + now apply all_links_zero.
    + unfold weighted. rewrite Zsum_zero; [exact Hw|]. intros i. rewrite Hz. lia.
    + unfold weighted. rewrite Zsum_zero; [exact Hv|]. intros i. rewrite Hz. lia.
  - unfold m. rewrite objective_at_built.
    rewrite (extra_terms_zero _ _ _ _ Hz).
    rewrite Qsum_zero; [ring|]. intros i. rewrite Hz. ring.
Qed.

(** ** The optimum of a model *)

Lemma optimum_le (m m' : CpModel) (v v' : Q) :
  optimum_of m v -> optimum_of m' v' ->
  (forall sol, feasibleb m sol = true ->
               exists sol', feasibleb m' sol' = true /\
                            (objective_at m sol <= objective_at m' sol')%Q) ->
  (v <= v')%Q.
Proof.
  intros [(sol & F & E) _] [_ B'] T.
  destruct (T sol F) as (sol' & F' & L).
  rewrite <- E. eapply Qle_trans; [exact L | now apply B'].
Qed.

Lemma optimum_transfer (m m' : CpModel) (v : Q) :
  (forall sol, feasibleb m sol = true ->
               exists sol', feasibleb m' sol' = true /\
                            objective_at m sol == objective_at m' sol') ->
  (forall sol', feasibleb m' sol' = true ->
                exists sol, feasibleb m sol = true /\
                            objective_at m' sol' == objective_at m sol) ->
  optimum_of m v -> optimum_of m' v.
Proof.
  intros T T' [(sol & F & E) B]. split.
  - destruct (T sol F) as (sol' & F' & E'). exists sol'. split; [exact F'|].
    now rewrite <- E'.
  - intros sol' F'. destruct (T' sol' F') as (sol0 & F0 & E0).
    rewrite E0. now apply B.
Qed.

(** X13.  With non-negative capacities the empty selection is feasible for
    the model left by a run, with objective 0; so the greatest value of the
    objective over the feasible assignments is not negative. *)
Theorem optimum_nonnegative (Solve : Q -> CpModel -> CpSolverResponse)
    (weights volumes : list Z) (values : list Q) (boosts : list Boost)
    (max_weight max_volume : Z) (time_limit_s : Q)
    (res : option (list Z) * option Q) (w' : World) :
  knapsack_body Solve weights volumes values boosts max_weight max_volume
    time_limit_s (mkWorld new_CpModel []) = (inr res, w') ->
  0 <= max_weight -> 0 <= max_volume ->
  attains (model w') 0 /\
  (forall v, optimum_of (model w') v -> (0 <= v)%Q).
Proof.
  intros H Hw Hv. apply run_returned in H as (_ & -> & _).
  destruct (empty_selection_feasible weights volumes values boosts _ _ Hw Hv)
    as [F O].
  split.
  - eexists. split; [exact F | exact O].
  - intros v [_ B]. rewrite <- O. now apply B.
Qed.

(** ** A boost of factor 1 *)

(** The assignment [sol] without the value of variable [p]. *)
Definition drop_at (p : nat) (sol : list Z) : list Z := firstn p sol ++ skipn (S p) sol.

Lemma nth_drop_at_lt (p i : nat) (sol : list Z) :
  (i < p)%nat -> nth i (drop_at p sol) 0 = nth i sol 0.
Proof.
  revert i sol. induction p as [|p IH]; intros i sol Hi; [lia|].
  destruct sol as [|v sol]; [now destruct i|].
  destruct i as [|i]; [reflexivity|].
  unfold drop_at in *. cbn [firstn skipn app nth]. apply IH. lia.
Qed.

Lemma nth_drop_at_ge (p i : nat) (sol : list Z) :
  (p <= i)%nat -> nth i (drop_at p sol) 0 = nth (S i) sol 0.
Proof.
  revert i sol. induction p as [|p IH]; intros i sol Hi.
  - destruct sol as [|v sol]; [now destruct i|]. reflexivity.
  - destruct sol as [|v sol]; [now destruct i|].
    destruct i as [|i]; [lia|].
    unfold drop_at in *. cbn [firstn skipn app nth]. apply IH. lia.
Qed.

Lemma extra_terms_agree (values : list Q) (sol sol' : list Z) (k : BoolVar)
    (boosts : list Boost) :
  (forall i, (k <= i < k + length boosts)%nat -> nth i sol 0 = nth i sol' 0) ->
  map (evalQ sol) (extra_terms values k boosts) =
  map (evalQ sol') (extra_terms values k boosts).
Proof.
  revert k. induction boosts as [|t rest IH]; intros k H; [reflexivity|].
  cbn [extra_terms map evalQ]. cbn [length] in H.
  rewrite (H k) by lia. f_equal. apply IH. intros i Hi. apply H. lia.
Qed.

Lemma extra_terms_shift (values : list Q) (sol sol' : list Z) (k : BoolVar)
    (boosts : list Boost) :
  (forall i, (k <= i)%nat -> nth (S i) sol 0 = nth i sol' 0) ->
  map (evalQ sol) (extra_terms values (S k) boosts) =
  map (evalQ sol') (extra_terms values k boosts).
Proof.
  revert k. induction boosts as [|t rest IH]; intros k H; [reflexivity|].
  cbn [extra_terms map evalQ].
  rewrite (H k) by lia. f_equal. apply IH. intros i Hi. apply H. lia.
Qed.

Lemma extra_unit (values : list Q) (a b : Z) (f : Q) :
  f == 1 -> extra values (a, b, f) == 0.
Proof. intros H. unfold extra. rewrite H. ring. Qed.

(** The objective of the model with the boost, at any assignment, is the
    objective of the model without it at the assignment without that
    boost's variable. *)
Lemma objective_without_unit_boost (weights volumes : list Z) (values : list Q)
    (pre post : list Boost) (a b : Z) (f : Q) (max_weight max_volume : Z)
    (sol : list Z) :
  f == 1 ->
  objective_at
    (built_model weights volumes values (pre ++ (a, b, f) :: post)
       max_weight max_volume) sol ==
  objective_at
    (built_model weights volumes values (pre ++ post) max_weight max_volume)
    (drop_at (length values + length pre) sol).
Proof.
  intros Hf. rewrite !objective_at_built.
  set (n := length values). set (p := (n + length pre)%nat).
  rewrite !extra_terms_app. cbn [extra_terms]. rewrite !map_app, !Qsum_app.
  cbn [map Qsum fold_right evalQ].
  change (fold_right Qplus 0%Q ?l) with (Qsum l).
  fold p.
  rewrite (extra_unit values a b f Hf).
  rewrite (extra_terms_agree values sol (drop_at p sol) n pre).
  2:{ intros i Hi. symmetry. apply nth_drop_at_lt. unfold p. lia. }
  rewrite (extra_terms_shift values sol (drop_at p sol) p post).
  2:{ intros i Hi. symmetry. now apply nth_drop_at_ge. }
  replace (map (fun i => (nth i values 0 * inject_Z (nth i (drop_at p sol) 0%Z))%Q)
             (seq 0 n))
    with (map (fun i => (nth i values 0 * inject_Z (nth i sol 0%Z))%Q) (seq 0 n)).
  2:{ apply map_ext_in. intros i Hi. apply in_seq in Hi.
      rewrite nth_drop_at_lt by (unfold p; lia). reflexivity. }
  ring.
Qed.

(** The value of a selection: what the objective is worth at a feasible
    assignment, which depends on the item variables only. *)
Definition selection_value (values : list Q) (boosts : list Boost) (sol : list Z) : Q :=
  (Qsum (map (fun i => nth i values 0) (chosen sol (length values)))
   + Qsum (map (extra values) (filter (both_chosen sol (length values)) boosts)))%Q.

Definition conj_value (n : nat) (xs : list Z) (t : Boost) : Z :=
  let '(a, b, _) := t in nth (position n a) xs 0 * nth (position n b) xs 0.

(** The item part of [sol], completed with the conjunction of each boost. *)
Definition extend (n : nat) (sol : list Z) (boosts : list Boost) : list Z :=
  firstn n sol ++ map (conj_value n (firstn n sol)) boosts.

Lemma nth_firstn_lt (n i : nat) (sol : list Z) :
  (i < n)%nat -> nth i (firstn n sol) 0 = nth i sol 0.
Proof.
  revert i sol. induction n as [|n IH]; intros i sol Hi; [lia|].
  destruct sol as [|v sol]; [now destruct i|].
  destruct i as [|i]; [reflexivity|]. cbn [firstn nth]. apply IH. lia.
Qed.

Lemma nth_extend_item (n i : nat) (sol : list Z) (boosts : list Boost) :
  (n <= length sol)%nat -> (i < n)%nat ->
  nth i (extend n sol boosts) 0 = nth i sol 0.
Proof.
  intros Hn Hi. unfold extend.
  rewrite app_nth1 by (rewrite length_firstn; lia).
  now apply nth_firstn_lt.
Qed.

Lemma all_links_pointwise (sol : list Z) (n : nat) (boosts : list Boost) (k : BoolVar) :
  boolean sol ->
  (forall j t, nth_error boosts j = Some t ->
               forallb (holdsb sol) (link_constraints n (k + j)%nat t) = true) ->
  forallb (holdsb sol) (all_links n k boosts) = true.
Proof.
  intros Hb. revert k. induction boosts as [|t rest IH]; intros k H; [reflexivity|].
  cbn [all_links]. rewrite forallb_app. apply andb_true_iff. split.
  - specialize (H O t eq_refl). now rewrite Nat.add_0_r in H.
  - apply IH. intros j t' Hj. specialize (H (S j) t' Hj).
    now rewrite Nat.add_succ_r in H.
Qed.

Lemma forallb_firstn {A : Type} (p : A -> bool) (n : nat) (l : list A) :
  forallb p l = true -> forallb p (firstn n l) = true.
Proof.
  revert l. induction n as [|n IH]; intros l H; [reflexivity|].
  destruct l as [|a l]; [reflexivity|]. simpl in *.
  apply andb_true_iff in H as [Ha Hl]. now rewrite Ha, IH.
Qed.

Section Extend.

Variables (weights volumes : list Z) (values : list Q).
Variables (max_weight max_volume : Z).

Let n := length values.

(** The item part of a feasible assignment of one boost list extends to a
    feasible assignment of any other boost list with defined subscripts. *)
Lemma extend_feasible (boosts boosts' : list Boost) (sol : list Z) :
  forallb (boost_ok n) boosts = true ->
  feasibleb (built_model weights volumes values boosts' max_weight max_volume) sol
  = true ->
  feasibleb (built_model weights volumes values boosts max_weight max_volume)
    (extend n sol boosts) = true.
Proof.
  intros Hok F. apply feasibleb_built in F as (L & B & _ & Cw & Cv). fold n in L.
  assert (Hn : (n <= length sol)%nat) by lia.
  assert (Hx : forallb is_bool (firstn n sol) = true) by now apply forallb_firstn.
  assert (Hxb : boolean (firstn n sol)) by now apply forallb_is_bool.
  assert (Hall : forallb is_bool (extend n sol boosts) = true).
  { unfold extend. rewrite forallb_app, Hx. cbn [andb].
    apply forallb_forall. intros v Hv. apply in_map_iff in Hv as ([[a b] f] & <- & _).
    unfold conj_value, is_bool.
    pose proof (Hxb (position n a)). pose proof (Hxb (position n b)). nia. }
  apply feasibleb_built. fold n. repeat split.
  - unfold extend. rewrite length_app, length_map, length_firstn. lia.
  - exact Hall.
  - apply all_links_pointwise; [now apply forallb_is_bool|].
    intros j [[a b] f] Hj.
    apply link_constraints_product; [now apply forallb_is_bool|].
    assert (Hin : In (a, b, f) boosts) by (eapply nth_error_In; eassumption).
    rewrite forallb_forall in Hok. specialize (Hok _ Hin). simpl in Hok.
    apply andb_true_iff in Hok as [Ha Hb'].
    rewrite (nth_extend_item n (position n a)) by (auto using position_lt).
    rewrite (nth_extend_item n (position n b)) by (auto using position_lt).
    unfold extend. rewrite app_nth2 by (rewrite length_firstn; lia).
    rewrite length_firstn.
    replace (n + j - Nat.min n (length sol))%nat with j by lia.
    rewrite (nth_indep _ 0 (conj_value n (firstn n sol) (a, b, f))).
    2:{ rewrite length_map. apply nth_error_Some. congruence. }
    rewrite map_nth. rewrite (nth_error_nth _ _ _ Hj).
    unfold conj_value.
    rewrite !nth_firstn_lt by (auto using position_lt). reflexivity.
  - unfold weighted in *. fold n in Cw |- *.
    erewrite map_ext_in; [exact Cw|].
    intros i Hi. apply in_seq in Hi. rewrite nth_extend_item by lia. reflexivity.
  - unfold weighted in *. fold n in Cv |- *.
    erewrite map_ext_in; [exact Cv|].
    intros i Hi. apply in_seq in Hi. rewrite nth_extend_item by lia. reflexivity.
Qed.

Lemma selection_value_extend (boosts boosts' : list Boost) (sol : list Z) :
  forallb (boost_ok n) boosts = true ->
  (n <= length sol)%nat ->
  selection_value values boosts (extend n sol boosts') =
  selection_value values boosts sol.
Proof.
  intros Hok Hn. unfold selection_value, chosen. fold n. f_equal.
  - f_equal. f_equal. apply filter_ext_in. intros i Hi. apply in_seq in Hi.
    rewrite nth_extend_item by lia. reflexivity.
  - f_equal. f_equal. apply filter_ext_in. intros [[a b] f] Hin.
    rewrite forallb_forall in Hok. specialize (Hok _ Hin). simpl in Hok.
    apply andb_true_iff in Hok as [Ha Hb].
    unfold both_chosen. rewrite !nth_extend_item by (auto using position_lt).
    reflexivity.
Qed.

Lemma selection_value_unit (pre post : list Boost) (a b : Z) (f : Q) (sol : list Z) :
  f == 1 ->
  selection_value values (pre ++ (a, b, f) :: post) sol ==
  selection_value values (pre ++ post) sol.
Proof.
  intros Hf. unfold selection_value. rewrite !filter_app. cbn [filter].
  destruct (both_chosen sol (length values) (a, b, f)); [|reflexivity].
  rewrite !map_app, !Qsum_app. cbn [map Qsum fold_right].
  change (fold_right Qplus 0%Q ?l) with (Qsum l).
  rewrite (extra_unit values a b f Hf). ring.
Qed.

End Extend.

Lemma objective_selection_value (weights volumes : list Z) (values : list Q)
    (boosts : list Boost) (max_weight max_volume : Z) (sol : list Z) :
  feasibleb (built_model weights volumes values boosts max_weight max_volume) sol
  = true ->
  objective_at (built_model weights volumes values boosts max_weight max_volume) sol
  == selection_value values boosts sol.
Proof. intros F. now rewrite objective_at_feasible. Qed.

Lemma feasible_length (weights volumes : list Z) (values : list Q)
    (boosts : list Boost) (max_weight max_volume : Z) (sol : list Z) :
  feasibleb (built_model weights volumes values boosts max_weight max_volume) sol
  = true ->
  (length values <= length sol)%nat.
Proof. intros F. apply feasibleb_built in F as (L & _). lia. Qed.

(** A feasible assignment of the model of one boost list gives, on the same
    items, a feasible assignment of the model of another boost list, whose
    objective is the value of that selection under the other list. *)
Lemma extend_objective (weights volumes : list Z) (values : list Q)
    (max_weight max_volume : Z) (boosts boosts' : list Boost) (sol : list Z) :
  forallb (boost_ok (length values)) boosts = true ->
  feasibleb (built_model weights volumes values boosts' max_weight max_volume) sol
  = true ->
  feasibleb (built_model weights volumes values boosts max_weight max_volume)
    (extend (length values) sol boosts) = true /\
  objective_at (built_model weights volumes values boosts max_weight max_volume)
    (extend (length values) sol boosts)
  == selection_value values boosts sol.
Proof.
  intros Hok F.
  pose proof (feasible_length _ _ _ _ _ _ _ F) as L.
  pose proof (extend_feasible weights volumes values max_weight max_volume
                boosts boosts' sol Hok F) as G.
  split; [exact G|].
  rewrite (objective_selection_value _ _ _ _ _ _ _ G).
  now rewrite (selection_value_extend values boosts boosts sol Hok L).
Qed.

Lemma boost_ok_without (n : nat) (pre post : list Boost) (t : Boost) :
  forallb (boost_ok n) (pre ++ t :: post) = true ->
  forallb (boost_ok n) (pre ++ post) = true.
Proof.
  rewrite !forallb_app. cbn [forallb]. rewrite !andb_true_iff. tauto.
Qed.

Section UnitBoost.

Variable Solve : Q -> CpModel -> CpSolverResponse.

Variables (weights volumes : list Z) (values : list Q).
Variables (pre post : list Boost) (a b : Z) (f : Q).
Variables (max_weight max_volume : Z) (time_limit_s : Q).

Let with_boost := pre ++ (a, b, f) :: post.
Let without_boost := pre ++ post.
Let m1 := built_model weights volumes values with_boost max_weight max_volume.
Let m0 := built_model weights volumes values without_boost max_weight max_volume.

(** The two models have the same optimum. *)
Lemma unit_boost_same_optimum (v : Q) :
  f == 1 ->
  forallb (boost_ok (length values)) with_boost = true ->
  optimum_of m1 v <-> optimum_of m0 v.
Proof.
  intros Hf Hok1.
  pose proof (boost_ok_without _ _ _ _ Hok1) as Hok0. fold without_boost in Hok0.
  assert (T10 : forall sol, feasibleb m1 sol = true ->
                  exists sol', feasibleb m0 sol' = true /\
                               objective_at m1 sol == objective_at m0 sol').
  { intros sol F.
    destruct (extend_objective weights volumes values max_weight max_volume
                without_boost with_boost sol Hok0 F) as [G E].
    exists (extend (length values) sol without_boost). split; [exact G|].
    fold m0 in E. rewrite E. unfold m1.
    rewrite (objective_selection_value _ _ _ _ _ _ _ F).
    unfold with_boost, without_boost. now apply selection_value_unit. }
  assert (T01 : forall sol, feasibleb m0 sol = true ->
                  exists sol', feasibleb m1 sol' = true /\
                               objective_at m0 sol == objective_at m1 sol').
  { intros sol F.
    destruct (extend_objective weights volumes values max_weight max_volume
                with_boost without_boost sol Hok1 F) as [G E].
    exists (extend (length values) sol with_boost). split; [exact G|].
    fold m1 in E. rewrite E. unfold m0.
    rewrite (objective_selection_value _ _ _ _ _ _ _ F).
    unfold with_boost, without_boost. symmetry. now apply selection_value_unit. }
  split; apply optimum_transfer; assumption.
Qed.

(** C9.  A boost [(a, b, 1.0)] has coefficient [values[a] * (1.0 - 1) = 0]
    in the objective, so the objective built with it equals, at every
    assignment, the objective built for the same input without it (at the
    same assignment less the boost's own variable); and the models left by
    the two runs, with and without the boost, have the same optimal
    objective value. *)
Theorem unit_boost_is_neutral :
  f == 1 ->
  extra values (a, b, f) == 0 /\
  (forall sol,
      objective_at m1 sol ==
      objective_at m0 (drop_at (length values + length pre) sol)) /\
  (forall res1 w1 res0 w0,
      knapsack_body Solve weights volumes values with_boost
        max_weight max_volume time_limit_s (mkWorld new_CpModel [])
      = (inr res1, w1) ->
      knapsack_body Solve weights volumes values without_boost
        max_weight max_volume time_limit_s (mkWorld new_CpModel [])
      = (inr res0, w0) ->
      forall v, optimum_of (model w1) v <-> optimum_of (model w0) v).
Proof.
  intros Hf. split; [|split].
  - now apply extra_unit.
  - intros sol. now apply objective_without_unit_boost.
  - intros res1 w1 res0 w0 H1 H0 v.
    apply run_returned in H1 as (Hwi1 & -> & _).
    apply run_returned in H0 as (_ & -> & _).
    apply well_indexed_parts in Hwi1 as (Hok1 & _ & _).
    now apply unit_boost_same_optimum.
Qed.

End UnitBoost.

(** ** The program on concrete inputs *)

(** The scenario of the specification: both items fit, and the boost of
    item 0 by item 1 brings the total to 30. *)
Lemma total_value_recomputed_witness :
  (forall t m, sound_response m (exhaustive_Solve t m)) /\
  knapsack_with_boosts exhaustive_Solve [2; 3] [1; 1] [10#1; 10#1] [(0, 1, 2#1)]
    5 2 10 = inr (Some [0; 1], Some (30#1)) /\
  30#1 == recomputed (both_selected 2 [0; 1]) [10#1; 10#1] [(0, 1, 2#1)] [0; 1].
Proof.
  split; [exact exhaustive_Solve_sound|].
  split; [vm_compute; reflexivity|].
  apply (total_value_recomputed exhaustive_Solve exhaustive_Solve_sound
           [2; 3] [1; 1] [10#1; 10#1] [(0, 1, 2#1)] 5 2 10 [0; 1] (30#1)).
  vm_compute. reflexivity.
Defined.

(** C1, as stated, fails on a boost written with a negative subscript:
    [(-1, 0, 2.0)] boosts the last item, the call reports 30, and the
    recomputation over the boosts whose written endpoints are both in the
    returned list finds none and gives 20. *)
Lemma total_value_as_stated_counterexample :
  knapsack_with_boosts exhaustive_Solve [2; 3] [1; 1] [10#1; 10#1] [(-1, 0, 2#1)]
    5 2 10 = inr (Some [0; 1], Some (30#1)) /\
  recomputed (both_listed [0; 1]) [10#1; 10#1] [(-1, 0, 2#1)] [0; 1] == 20#1 /\
  ~ (30#1 == recomputed (both_listed [0; 1]) [10#1; 10#1] [(-1, 0, 2#1)] [0; 1]).
Proof.
  split; [vm_compute; reflexivity|].
  split; [vm_compute; reflexivity|].
  vm_compute. discriminate.
Qed.

Lemma linking_forces_conjunction_witness :
  let w := mkWorld (mkModel ["x[0]"; "x[1]"]%string [] None) [] in
  let w' := snd (link [0; 1]%nat (0, 1, 2#1) w) in
  let cs := constraints (model w') in
  let sol := [1; 1; 1] in
  link [0; 1]%nat (0, 1, 2#1) w = (inr ((0, 1), 2%nat), w') /\
  boolean sol /\
  forallb (holdsb sol) cs = true /\
  (nth 2 sol 0 = 1 <-> nth 0 sol 0 = 1 /\ nth 1 sol 0 = 1).
Proof.
  cbv zeta.
  split; [vm_compute; reflexivity|].
  split; [apply forallb_is_bool; reflexivity|].
  split; [vm_compute; reflexivity|].
  refine (proj1 (proj2
    (linking_forces_conjunction [0; 1]%nat 0 1 (2#1)
       (mkWorld (mkModel ["x[0]"; "x[1]"]%string [] None) [])
       (snd (link [0; 1]%nat (0, 1, 2#1)
               (mkWorld (mkModel ["x[0]"; "x[1]"]%string [] None) [])))
       (0, 1) 2%nat 0%nat 1%nat
       (constraints (model (snd (link [0; 1]%nat (0, 1, 2#1)
               (mkWorld (mkModel ["x[0]"; "x[1]"]%string [] None) [])))))
       [1; 1; 1] _ _ _ _ _ _))).
  - vm_compute. reflexivity.
  - vm_compute. reflexivity.
  - vm_compute. reflexivity.
  - vm_compute. reflexivity.
  - apply forallb_is_bool. reflexivity.
  - vm_compute. reflexivity.
Defined.

Lemma capacity_respected_witness :
  (forall t m, sound_response m (exhaustive_Solve t m)) /\
  knapsack_with_boosts exhaustive_Solve [2; 3] [1; 1] [10#1; 10#1] [(0, 1, 2#1)]
    5 2 10 = inr (Some [0; 1], Some (30#1)) /\
  Zsum (map (item 0 [2; 3]) [0; 1]) <= 5 /\
  Zsum (map (item 0 [1; 1]) [0; 1]) <= 2.
Proof.
  split; [exact exhaustive_Solve_sound|].
  split; [vm_compute; reflexivity|].
  apply (capacity_respected exhaustive_Solve exhaustive_Solve_sound
           [2; 3] [1; 1] [10#1; 10#1] [(0, 1, 2#1)] 5 2 10 [0; 1] (30#1)).
  vm_compute. reflexivity.
Defined.


(** No selection fits a negative weight capacity when every weight is
    positive: the engine answers [INFEASIBLE]. *)
Lemma no_solution_returns_absent_witness :
  well_indexed [1] [1] [10#1] [] = true /\
  status (exhaustive_Solve 10 (built_model [1] [1] [10#1] [] (-1) 1)) = INFEASIBLE /\
  knapsack_with_boosts exhaustive_Solve [1] [1] [10#1] [] (-1) 1 10
  = inr (None, None).
Proof.
  split; [reflexivity|].
  split; [vm_compute; reflexivity|].
  apply (no_solution_returns_absent exhaustive_Solve [1] [1] [10#1] [] (-1) 1 10).
  - reflexivity.
  - vm_compute. discriminate.
  - vm_compute. discriminate.
Defined.


(** C7, as stated, fails: with [max_weight = 0] an item of weight 0 and
    volume 5 fits a volume capacity of 100 and is selected, although its
    volume is not zero; the selection is not empty and the total is 10. *)
Lemma zero_capacity_counterexample :
  (forall w, In w [0] -> 0 <= w) /\
  (forall v, In v [5] -> 0 <= v) /\
  knapsack_with_boosts exhaustive_Solve [0] [5] [10#1] [] 0 100 10
  = inr (Some [0], Some (10#1)) /\
  item 0 [5] 0 = 5 /\
  ~ (item 0 [0] 0 = 0 /\ item 0 [5] 0 = 0) /\
  ~ (10#1 == 0).
Proof.
  split; [intros w [<-|[]]; lia|].
  split; [intros v [<-|[]]; lia|].
  split; [vm_compute; reflexivity|].
  split; [reflexivity|].
  split; [vm_compute; intros [_ H]; discriminate | vm_compute; discriminate].
Qed.

Lemma zero_capacity_selection_witness :
  (forall t m, sound_response m (exhaustive_Solve t m)) /\
  (forall w, In w [0; 1] -> 0 <= w) /\
  (forall v, In v [5; 1] -> 0 <= v) /\
  knapsack_with_boosts exhaustive_Solve [0; 1] [5; 1] [10#1; 7#1] [] 0 100 10
  = inr (Some [0], Some (10#1)) /\
  ((0 = 0 -> forall i, In i [0] -> item 0 [0; 1] i = 0) /\
   (100 = 0 -> forall i, In i [0] -> item 0 [5; 1] i = 0) /\
   ([0] = [] -> 10#1 == 0)).
Proof.
  split; [exact exhaustive_Solve_sound|].
  assert (Hw : forall w, In w [0; 1] -> 0 <= w) by (intros w [<-|[<-|[]]]; lia).
  assert (Hv : forall v, In v [5; 1] -> 0 <= v) by (intros v [<-|[<-|[]]]; lia).
  split; [exact Hw|]. split; [exact Hv|].
  split; [vm_compute; reflexivity|].
  apply (zero_capacity_selection exhaustive_Solve exhaustive_Solve_sound
           [0; 1] [5; 1] [10#1; 7#1] 0 100 10 [] [0] (10#1) Hw Hv).
  vm_compute. reflexivity.
Defined.

Lemma selected_indices_exact_witness :
  (forall t m, sound_response m (exhaustive_Solve t m)) /\
  well_indexed [2; 3] [1; 1] [10#1; 10#1] [(0, 1, 2#1)] = true /\
  status (exhaustive_Solve 10
            (built_model [2; 3] [1; 1] [10#1; 10#1] [(0, 1, 2#1)] 5 2)) = OPTIMAL /\
  exists sel,
    knapsack_with_boosts exhaustive_Solve [2; 3] [1; 1] [10#1; 10#1] [(0, 1, 2#1)]
      5 2 10
    = inr (Some sel,
           Some (objective_value
                   (exhaustive_Solve 10
                      (built_model [2; 3] [1; 1] [10#1; 10#1] [(0, 1, 2#1)] 5 2)))) /\
    (forall i, In i sel <->
               0 <= i < Py.len [10#1; 10#1] /\
               Value (exhaustive_Solve 10
                        (built_model [2; 3] [1; 1] [10#1; 10#1] [(0, 1, 2#1)] 5 2))
                     (Z.to_nat i) = 1) /\
    StronglySorted Z.lt sel /\ NoDup sel.
Proof.
  split; [exact exhaustive_Solve_sound|].
  split; [reflexivity|].
  split; [vm_compute; reflexivity|].
  apply (selected_indices_exact exhaustive_Solve exhaustive_Solve_sound
           [2; 3] [1; 1] [10#1; 10#1] [(0, 1, 2#1)] 5 2 10).
  - reflexivity.
  - vm_compute. reflexivity.
Defined.

Lemma unit_boost_is_neutral_witness :
  let run1 := knapsack_body exhaustive_Solve [2; 3] [1; 1] [10#1; 10#1]
                ([] ++ (0, 1, 1#1) :: []) 5 2 10 (mkWorld new_CpModel []) in
  let run0 := knapsack_body exhaustive_Solve [2; 3] [1; 1] [10#1; 10#1]
                ([] ++ []) 5 2 10 (mkWorld new_CpModel []) in
  1#1 == 1 /\
  fst run1 = inr (Some [0; 1], Some (20#1)) /\
  fst run0 = inr (Some [0; 1], Some (20#1)) /\
  extra [10#1; 10#1] (0, 1, 1#1) == 0 /\
  optimum_of (model (snd run0)) (20#1) /\
  optimum_of (model (snd run1)) (20#1).
Proof.
  cbv zeta.
  pose proof (unit_boost_is_neutral exhaustive_Solve [2; 3] [1; 1] [10#1; 10#1]
                [] [] 0 1 (1#1) 5 2 10 (reflexivity (1#1))) as (He & _ & Hopt).
  assert (O0 : optimum_of
                 (model (snd (knapsack_body exhaustive_Solve [2; 3] [1; 1]
                                [10#1; 10#1] ([] ++ []) 5 2 10
                                (mkWorld new_CpModel [])))) (20#1)).
  { match goal with
    | |- optimum_of ?m _ =>
        assert (E : objective_value (exhaustive_Solve 10 m) = 20#1)
          by (vm_compute; reflexivity);
        rewrite <- E; apply exhaustive_optimum
    end.
    vm_compute. reflexivity. }
  split; [reflexivity|].
  split; [vm_compute; reflexivity|].
  split; [vm_compute; reflexivity|].
  split; [exact He|].
  split; [exact O0|].
  refine (proj2 (Hopt (Some [0; 1], Some (20#1)) _ (Some [0; 1], Some (20#1)) _
                   _ _ (20#1)) O0).
  - vm_compute. reflexivity.
  - vm_compute. reflexivity.
Defined.

Lemma optimum_nonnegative_witness :
  let run := knapsack_body exhaustive_Solve [1; 1; 1] [1; 1; 1] [10#1; 1#1; 1#1]
               [(0, 1, 1#4); (0, 2, 1#4)] 3 3 10 (mkWorld new_CpModel []) in
  fst run = inr (Some [0], Some (160#16)) /\
  0 <= 3 /\
  attains (model (snd run)) 0 /\
  (forall v, optimum_of (model (snd run)) v -> (0 <= v)%Q).
Proof.
  cbv zeta. split; [vm_compute; reflexivity|].
  split; [lia|].
  apply (optimum_nonnegative exhaustive_Solve [1; 1; 1] [1; 1; 1] [10#1; 1#1; 1#1]
           [(0, 1, 1#4); (0, 2, 1#4)] 3 3 10 (Some [0], Some (160#16))).
  - vm_compute. reflexivity.
  - lia.
  - lia.
Defined.

(** * Further properties of [knapsack_with_boosts] *)

(** ** The shape of the model *)

Lemma length_all_links (n : nat) (k : BoolVar) (boosts : list Boost) :
  length (all_links n k boosts) = (3 * length boosts)%nat.
Proof.
  revert k. induction boosts as [|[[a b] f] rest IH]; intros k; [reflexivity|].
  cbn [all_links link_constraints length app]. rewrite IH. lia.
Qed.

(** X1.  With at least one item, a run that raises nothing leaves a model
    with one variable per item, named [x[i]], followed by one variable per
    boost triplet, named [z[a,b]], in the order of the lists (a repeated
    triplet gets a variable of its own each time); it holds three
    constraints per triplet and the two capacity constraints, and it has an
    objective. *)
Theorem model_shape (Solve : Q -> CpModel -> CpSolverResponse)
    (weights volumes : list Z) (values : list Q) (boosts : list Boost)
    (max_weight max_volume : Z) (time_limit_s : Q)
    (res : option (list Z) * option Q) (w' : World) :
  values <> [] ->
  knapsack_body Solve weights volumes values boosts max_weight max_volume
    time_limit_s (mkWorld new_CpModel []) = (inr res, w') ->
  variables (model w') =
    map x_name (Py.range (Py.len values)) ++ map boost_z_name boosts /\
  length (variables (model w')) = (length values + length boosts)%nat /\
  length (constraints (model w')) = (3 * length boosts + 2)%nat /\
  objective (model w') <> None.
Proof.
  intros _ H. apply run_returned in H as (_ & -> & _).
  unfold built_model. cbn [variables constraints objective].
  repeat split.
  - rewrite length_app, !length_map. unfold Py.len. now rewrite length_range.
  - rewrite length_app, length_all_links. cbn [length]. lia.
  - discriminate.
Qed.

Lemma model_shape_witness :
  let run := knapsack_body exhaustive_Solve [2; 3] [1; 1] [10#1; 10#1]
               [(0, 1, 2#1); (0, 1, 2#1)] 5 2 10 (mkWorld new_CpModel []) in
  fst run = inr (Some [0; 1], Some (40#1)) /\
  variables (model (snd run)) = ["x[0]"; "x[1]"; "z[0,1]"; "z[0,1]"]%string /\
  length (constraints (model (snd run))) = 8%nat.
Proof.
  cbv zeta. split; [vm_compute; reflexivity|].
  pose proof (model_shape exhaustive_Solve [2; 3] [1; 1] [10#1; 10#1]
                [(0, 1, 2#1); (0, 1, 2#1)] 5 2 10
                (Some [0; 1], Some (40#1))
                (snd (knapsack_body exhaustive_Solve [2; 3] [1; 1] [10#1; 10#1]
                        [(0, 1, 2#1); (0, 1, 2#1)] 5 2 10
                        (mkWorld new_CpModel [])))) as H.
  destruct H as (Hv & _ & Hc & _); [discriminate | vm_compute; reflexivity|].
  split; [rewrite Hv; vm_compute; reflexivity | exact Hc].
Defined.

(** ** The console *)

(** A step is quiet when it prints nothing, whether it returns or raises. *)
Definition quiet {A : Type} (c : M A) : Prop :=
  forall w, stdout (snd (c w)) = stdout w.

Lemma quiet_ret {A : Type} (a : A) : quiet (ret a).
Proof. intros w. reflexivity. Qed.

Lemma quiet_bind {A B : Type} (c : M A) (k : A -> M B) :
  quiet c -> (forall a, quiet (k a)) -> quiet (bind c k).
Proof.
  intros Hc Hk w. unfold bind. specialize (Hc w).
  destruct (c w) as [[e|a] w1]; cbn [snd] in *; [exact Hc|].
  now rewrite Hk.
Qed.

Lemma quiet_subscript {A : Type} (l : list A) (i : Z) : quiet (subscript l i).
Proof. intros w. unfold subscript. now destruct (Py.getitem l i). Qed.

Lemma quiet_NewBoolVar (name : string) : quiet (NewBoolVar name).
Proof. intros w. reflexivity. Qed.

Lemma quiet_Add (c : Constraint) : quiet (Add c).
Proof. intros w. reflexivity. Qed.

Lemma quiet_mapM {A B : Type} (f : A -> M B) (l : list A) :
  (forall a, quiet (f a)) -> quiet (mapM f l).
Proof.
  intros Hf. induction l as [|a l IH]; [apply quiet_ret|].
  cbn [mapM]. apply quiet_bind; [apply Hf|]. intros b.
  apply quiet_bind; [exact IH|]. intros bs. apply quiet_ret.
Qed.

Lemma quiet_link (x : list BoolVar) (t : Boost) : quiet (link x t).
Proof.
  destruct t as [[a b] f]. unfold link.
  repeat (apply quiet_bind;
          [first [apply quiet_NewBoolVar | apply quiet_subscript | apply quiet_Add]
          | intros ?]).
  apply quiet_ret.
Qed.

Lemma sumZ_Zsum (l : list Z) : sumZ l = Zsum l.
Proof.
  unfold sumZ, Zsum. rewrite <- fold_left_rev_right.
  assert (G : forall l' acc, fold_right (fun y x => x + y) acc l'
                             = acc + fold_right Z.add 0 l').
  { induction l' as [|v l' IH]; intros acc; simpl; [lia|]. rewrite IH. lia. }
  rewrite G. clear G.
  induction l as [|v l IH]; [reflexivity|].
  cbn [rev fold_right]. rewrite fold_right_app. cbn [fold_right].
  assert (G : forall l' acc, fold_right Z.add acc l' = acc + fold_right Z.add 0 l').
  { induction l' as [|u l' IH']; intros acc; simpl; [lia|]. rewrite IH'. lia. }
  rewrite G. lia.
Qed.

Lemma mapM_subscript_items (data : list Z) (l : list Z) (w : World) :
  (forall i, In i l -> 0 <= i < Py.len data) ->
  mapM (subscript data) l w = (inr (map (item 0 data) l), w).
Proof.
  intros H.
  rewrite (mapM_lift _ (Py.getitem data)) by reflexivity.
  rewrite (traverse_total _ (item 0 data)); [reflexivity|].
  intros i Hi. apply getitem_in_bounds. specialize (H i Hi).
  unfold in_bounds, Py.len in *. lia.
Qed.

Section Console.

Variable Solve : Q -> CpModel -> CpSolverResponse.

Variables (weights volumes : list Z) (values : list Q) (boosts : list Boost).
Variables (max_weight max_volume : Z) (time_limit_s : Q).

Let n := length values.
Let m := built_model weights volumes values boosts max_weight max_volume.
Let run :=
  knapsack_body Solve weights volumes values boosts
    max_weight max_volume time_limit_s (mkWorld new_CpModel []).

(** X2.  A call prints exactly one line when it returns a selection, and
    the line reports the summed weight and the summed volume of the selected
    items next to the two capacities; a call that raises, or that returns
    [(None, None)], prints nothing. *)
Theorem console_output :
  stdout (snd run) =
  match fst run with
  | inr (Some sel, _) =>
      [ debug_line (Zsum (map (item 0 weights) sel)) max_weight
                   (Zsum (map (item 0 volumes) sel)) max_volume ]
  | _ => []
  end.
Proof.
  unfold run, knapsack_body.
  fold n. unfold Py.len. fold n.
  erewrite bind_ok by apply mapM_NewBoolVar.
  rewrite length_range. cbn [new_CpModel variables model length].
  destruct (forallb (boost_ok n) boosts) eqn:Hb.
  2:{ edestruct mapM_link_fail as [w1 Hw1]; [exact Hb|].
      erewrite bind_err by apply Hw1. cbn [fst snd].
      match type of Hw1 with
      | mapM ?f ?l ?w0 = _ =>
          pose proof (quiet_mapM f l (quiet_link (seq 0 n)) w0) as Q
      end.
      rewrite Hw1 in Q. exact Q. }
  erewrite bind_ok by (apply mapM_link_ok; exact Hb).
  destruct (Nat.leb_spec n (length weights)) as [Hw|Hw].
  2:{ erewrite bind_err by (apply mapM_capacity_fail; exact Hw). reflexivity. }
  erewrite bind_ok by (apply mapM_capacity_ok; exact Hw).
  erewrite bind_ok by reflexivity.
  destruct (Nat.leb_spec n (length volumes)) as [Hv|Hv].
  2:{ erewrite bind_err by (apply mapM_capacity_fail; exact Hv). reflexivity. }
  erewrite bind_ok by (apply mapM_capacity_ok; exact Hv).
  erewrite bind_ok by reflexivity.
  erewrite bind_ok by (subst n; apply mapM_value_term).
  erewrite bind_ok.
  2:{ unfold with_variables. cbn [variables model].
      rewrite app_nil_l, length_map, length_range.
      subst n. apply mapM_boost_term. exact Hb. }
  erewrite bind_ok by reflexivity.
  erewrite bind_ok by reflexivity.
  match goal with
  | |- context [Solve time_limit_s (model ?w)] => replace w with (mkWorld m [])
  end.
  2:{ unfold m, built_model, after_links, with_variables. cbn.
      rewrite length_map, length_range, <- app_assoc. reflexivity. }
  cbn [model].
  destruct (has_solution (status (Solve time_limit_s m))); cbn [negb];
    [|reflexivity].
  erewrite bind_ok by apply filterM_is_selected.
  erewrite bind_ok.
  2:{ apply mapM_subscript_items. intros i Hi.
      apply selected_of_in_range in Hi. unfold Py.len. lia. }
  erewrite bind_ok.
  2:{ apply mapM_subscript_items. intros i Hi.
      apply selected_of_in_range in Hi. unfold Py.len. lia. }
  erewrite bind_ok by reflexivity.
  cbn [ret fst snd stdout app]. now rewrite !sumZ_Zsum.
Qed.

End Console.

(** ** What an optimal answer is worth *)

Lemma standard_feasible_built (weights volumes : list Z) (values : list Q)
    (max_weight max_volume : Z) (x : list Z) :
  (length values <= length weights)%nat ->
  (length values <= length volumes)%nat ->
  standard_feasible weights volumes (length values) max_weight max_volume x ->
  feasibleb (built_model weights volumes values [] max_weight max_volume) x = true.
Proof.
  intros Hw Hv (L & B & Cw & Cv). apply feasibleb_built.
  cbn [length all_links forallb]. rewrite Nat.add_0_r.
  rewrite forallb_is_bool_Forall. unfold weighted.
  rewrite (weighted_dotZ weights x _ L Hw), (weighted_dotZ volumes x _ L Hv). auto.
Qed.

Lemma standard_feasible_of_built (weights volumes : list Z) (values : list Q)
    (boosts : list Boost) (max_weight max_volume : Z) (sol : list Z) :
  (length values <= length weights)%nat ->
  (length values <= length volumes)%nat ->
  feasibleb (built_model weights volumes values boosts max_weight max_volume) sol
  = true ->
  standard_feasible weights volumes (length values) max_weight max_volume
    (firstn (length values) sol).
Proof.
  intros Hw Hv F. apply feasibleb_built in F as (L & B & _ & Cw & Cv).
  assert (Hl : length (firstn (length values) sol) = length values)
    by (rewrite length_firstn; lia).
  unfold standard_feasible. split; [exact Hl|]. split.
  - apply forallb_is_bool_Forall. now apply forallb_firstn.
  - rewrite <- (weighted_dotZ weights _ _ Hl Hw), <- (weighted_dotZ volumes _ _ Hl Hv).
    unfold weighted in Cw, Cv. split.
    + erewrite map_ext_in; [exact Cw|]. intros i Hi. apply in_seq in Hi.
      rewrite nth_firstn_lt by lia. reflexivity.
    + erewrite map_ext_in; [exact Cv|]. intros i Hi. apply in_seq in Hi.
      rewrite nth_firstn_lt by lia. reflexivity.
Qed.

Lemma selection_value_firstn (values : list Q) (boosts : list Boost) (sol : list Z) :
  forallb (boost_ok (length values)) boosts = true ->
  (length values <= length sol)%nat ->
  selection_value values boosts (firstn (length values) sol) =
  selection_value values boosts sol.
Proof.
  intros Hok L.
  pose proof (selection_value_extend values boosts [] sol Hok L) as E.
  unfold extend in E. cbn [map] in E. now rewrite app_nil_r in E.
Qed.

(** X3.  The model left by a run is the boosted knapsack: the values its
    objective takes on feasible assignments are exactly the boosted values
    (the values of the chosen items plus the extras of the boosts whose two
    items are both chosen) of the 0/1 choices of items that respect both
    capacities.  So the greatest of them, the optimum of the model, is at
    least the boosted value of every such choice. *)
Theorem model_attains_boosted_values (Solve : Q -> CpModel -> CpSolverResponse)
    (weights volumes : list Z) (values : list Q) (boosts : list Boost)
    (max_weight max_volume : Z) (time_limit_s : Q)
    (res : option (list Z) * option Q) (w' : World) :
  knapsack_body Solve weights volumes values boosts max_weight max_volume
    time_limit_s (mkWorld new_CpModel []) = (inr res, w') ->
  (forall v,
      attains (model w') v <->
      exists x,
        standard_feasible weights volumes (length values) max_weight max_volume x /\
        selection_value values boosts x == v) /\
  (forall v x,
      optimum_of (model w') v ->
      standard_feasible weights volumes (length values) max_weight max_volume x ->
      (selection_value values boosts x <= v)%Q).
Proof.
  intros H. apply run_returned in H as (Hwi & -> & _).
  apply well_indexed_parts in Hwi as (Hok & Hw & Hv).
  assert (Hback : forall x,
             standard_feasible weights volumes (length values)
               max_weight max_volume x ->
             exists sol,
               feasibleb (built_model weights volumes values boosts
                            max_weight max_volume) sol = true /\
               objective_at (built_model weights volumes values boosts
                               max_weight max_volume) sol
               == selection_value values boosts x).
  { intros x Hx.
    pose proof (standard_feasible_built weights volumes values _ _ x Hw Hv Hx) as F0.
    destruct (extend_objective weights volumes values max_weight max_volume
                boosts [] x Hok F0) as [G E].
    eexists. split; [exact G | exact E]. }
  split.
  - intros v. split.
    + intros (sol & F & E).
      exists (firstn (length values) sol). split.
      * now apply (standard_feasible_of_built weights volumes values boosts).
      * rewrite (selection_value_firstn values boosts sol Hok
                   (feasible_length _ _ _ _ _ _ _ F)).
        now rewrite <- (objective_selection_value _ _ _ _ _ _ _ F).
    + intros (x & Hx & E). destruct (Hback x Hx) as (sol & F & E').
      exists sol. split; [exact F|]. now rewrite E'.
  - intros v x [_ B] Hx. destruct (Hback x Hx) as (sol & F & E).
    rewrite <- E. now apply B.
Qed.

Lemma model_attains_boosted_values_witness :
  let run := knapsack_body exhaustive_Solve [2; 3] [1; 1] [10#1; 10#1]
               [(0, 1, 2#1)] 5 2 10 (mkWorld new_CpModel []) in
  fst run = inr (Some [0; 1], Some (30#1)) /\
  standard_feasible [2; 3] [1; 1] 2 5 2 [1; 1] /\
  selection_value [10#1; 10#1] [(0, 1, 2#1)] [1; 1] == 30#1 /\
  attains (model (snd run)) (30#1).
Proof.
  cbv zeta.
  assert (Hx : standard_feasible [2; 3] [1; 1] 2 5 2 [1; 1]).
  { unfold standard_feasible. split; [reflexivity|].
    split; [repeat (constructor; [right; reflexivity|]); constructor|].
    split; vm_compute; discriminate. }
  split; [vm_compute; reflexivity|].
  split; [exact Hx|].
  split; [vm_compute; reflexivity|].
  pose proof (model_attains_boosted_values exhaustive_Solve
                [2; 3] [1; 1] [10#1; 10#1] [(0, 1, 2#1)] 5 2 10
                (Some [0; 1], Some (30#1))
                (snd (knapsack_body exhaustive_Solve [2; 3] [1; 1] [10#1; 10#1]
                        [(0, 1, 2#1)] 5 2 10 (mkWorld new_CpModel [])))) as H.
  destruct H as [Hatt _]; [vm_compute; reflexivity|].
  apply Hatt. exists [1; 1]. split; [exact Hx | vm_compute; reflexivity].
Defined.

(** ** Entries beyond the items *)

Lemma cap_terms_firstn (data : list Z) (n : nat) :
  cap_terms (firstn n data) n = cap_terms data n.
Proof.
  unfold cap_terms. apply map_ext_in. intros i Hi. apply in_seq in Hi.
  rewrite nth_firstn_lt by lia. reflexivity.
Qed.

(** X4.  The number of items is [len(values)]: entries of [weights] and
    [volumes] past that position are never read, so a call gives the same
    outcome as on the two lists cut to that length. *)
Theorem trailing_entries_ignored (Solve : Q -> CpModel -> CpSolverResponse)
    (weights volumes : list Z) (values : list Q) (boosts : list Boost)
    (max_weight max_volume : Z) (time_limit_s : Q) :
  knapsack_with_boosts Solve weights volumes values boosts
    max_weight max_volume time_limit_s =
  knapsack_with_boosts Solve
    (firstn (length values) weights) (firstn (length values) volumes)
    values boosts max_weight max_volume time_limit_s.
Proof.
  rewrite !knapsack_with_boosts_run.
  replace (well_indexed (firstn (length values) weights)
             (firstn (length values) volumes) values boosts)
    with (well_indexed weights volumes values boosts).
  2:{ unfold well_indexed. rewrite !length_firstn. f_equal; [f_equal|].
      - destruct (Nat.leb_spec (length values) (length weights));
          destruct (Nat.leb_spec (length values)
                      (Nat.min (length values) (length weights))); lia.
      - destruct (Nat.leb_spec (length values) (length volumes));
          destruct (Nat.leb_spec (length values)
                      (Nat.min (length values) (length volumes))); lia. }
  replace (built_model (firstn (length values) weights)
             (firstn (length values) volumes) values boosts max_weight max_volume)
    with (built_model weights volumes values boosts max_weight max_volume).
  2:{ unfold built_model. now rewrite !cap_terms_firstn. }
  reflexivity.
Qed.

(** ** No items *)


Section NoItems.

Variable Solve : Q -> CpModel -> CpSolverResponse.
Hypothesis Solve_sound : forall t m, sound_response m (Solve t m).

Variables (weights volumes : list Z).
Variables (max_weight max_volume : Z) (time_limit_s : Q).


End NoItems.


(** ** Conjunction variables in the whole model *)

Lemma all_links_nth (sol : list Z) (n : nat) (boosts : list Boost) (k : BoolVar)
    (j : nat) (t : Boost) :
  forallb (holdsb sol) (all_links n k boosts) = true ->
  nth_error boosts j = Some t ->
  forallb (holdsb sol) (link_constraints n (k + j)%nat t) = true.
Proof.
  revert k j. induction boosts as [|t' rest IH]; intros k j H Hj.
  - now destruct j.
  - cbn [all_links] in H. rewrite forallb_app in H.
    apply andb_true_iff in H as [Ht Hrest].
    destruct j as [|j].
    + injection Hj as <-. now rewrite Nat.add_0_r.
    + rewrite Nat.add_succ_r. apply (IH (S k) j Hrest Hj).
Qed.

(** X6.  In every feasible assignment of the model left by a run, the
    variable created for the [k]-th boost triplet [(a, b, _)] (variable
    number [n + k]) equals the product of the item variables [x[a]] and
    [x[b]]; for a triplet that boosts an item by itself ([a = b]) it equals
    that item's variable. *)
Theorem conjunction_variables (Solve : Q -> CpModel -> CpSolverResponse)
    (weights volumes : list Z) (values : list Q) (boosts : list Boost)
    (max_weight max_volume : Z) (time_limit_s : Q)
    (res : option (list Z) * option Q) (w' : World)
    (sol : list Z) (k : nat) (a b : Z) (f : Q) (xa xb : BoolVar) :
  knapsack_body Solve weights volumes values boosts max_weight max_volume
    time_limit_s (mkWorld new_CpModel []) = (inr res, w') ->
  feasibleb (model w') sol = true ->
  nth_error boosts k = Some (a, b, f) ->
  Py.getitem (seq 0 (length values)) a = Some xa ->
  Py.getitem (seq 0 (length values)) b = Some xb ->
  nth (length values + k) sol 0 = nth xa sol 0 * nth xb sol 0 /\
  (a = b -> nth (length values + k) sol 0 = nth xa sol 0).
Proof.
  intros H F Hk Ha Hb. apply run_returned in H as (_ & Hm & _).
  rewrite Hm in F. apply feasibleb_built in F as (_ & B & L & _).
  apply forallb_is_bool in B.
  pose proof (all_links_nth _ _ _ _ _ _ L Hk) as Lk.
  apply (link_constraints_product sol _ _ a b f B) in Lk.
  rewrite getitem_seq in Ha, Hb. unfold position in Lk. rewrite Ha, Hb in Lk.
  split; [exact Lk|].
  intros ->. rewrite Ha in Hb. injection Hb as <-.
  rewrite Lk. pose proof (B xa). nia.
Qed.

Lemma conjunction_variables_witness :
  let run := knapsack_body exhaustive_Solve [2; 3] [1; 1] [10#1; 10#1]
               [(0, 1, 2#1); (-1, -1, 3#1)] 5 2 10 (mkWorld new_CpModel []) in
  fst run = inr (Some [0; 1], Some (50#1)) /\
  feasibleb (model (snd run)) [1; 1; 1; 1] = true /\
  nth (2 + 1) [1; 1; 1; 1] 0 = nth 1 [1; 1; 1; 1] 0 * nth 1 [1; 1; 1; 1] 0 /\
  (-1 = -1 -> nth (2 + 1) [1; 1; 1; 1] 0 = nth 1 [1; 1; 1; 1] 0).
Proof.
  cbv zeta. split; [vm_compute; reflexivity|].
  split; [vm_compute; reflexivity|].
  apply (conjunction_variables exhaustive_Solve [2; 3] [1; 1] [10#1; 10#1]
           [(0, 1, 2#1); (-1, -1, 3#1)] 5 2 10 (Some [0; 1], Some (50#1))
           (snd (knapsack_body exhaustive_Solve [2; 3] [1; 1] [10#1; 10#1]
                   [(0, 1, 2#1); (-1, -1, 3#1)] 5 2 10 (mkWorld new_CpModel [])))
           [1; 1; 1; 1] 1%nat (-1) (-1) (3#1) 1%nat 1%nat).
  - vm_compute. reflexivity.
  - vm_compute. reflexivity.
  - reflexivity.
  - vm_compute. reflexivity.
  - vm_compute. reflexivity.
Defined.

(** ** Negative subscripts name the same items *)

Lemma position_mod (n : nat) (a : Z) :
  in_bounds n a = true -> position n (a mod Z.of_nat n) = position n a.
Proof.
  unfold in_bounds, position, resolve. intros H.
  assert (Hn : 0 < Z.of_nat n) by lia.
  pose proof (Z.mod_pos_bound a (Z.of_nat n) Hn) as Hm.
  replace ((0 <=? a mod Z.of_nat n) && (a mod Z.of_nat n <? Z.of_nat n)) with true by lia.
  destruct ((0 <=? a) && (a <? Z.of_nat n)) eqn:E1.
  - rewrite Z.mod_small by lia. reflexivity.
  - replace ((- Z.of_nat n <=? a) && (a <? 0)) with true by lia.
    replace (a mod Z.of_nat n) with (Z.of_nat n + a); [reflexivity|].
    apply Z.mod_unique with (q := -1); lia.
Qed.

(** X7.  A boost endpoint is only used as a list subscript, so writing it as
    [a] or as [a % n] (its position counted from the front) gives a model
    with the same constraints and the same objective; only the name of the
    boost's variable differs. *)
Theorem endpoints_modulo_items (Solve : Q -> CpModel -> CpSolverResponse)
    (weights volumes : list Z) (values : list Q) (pre post : list Boost)
    (a b : Z) (f : Q) (max_weight max_volume : Z) (time_limit_s : Q)
    (res res' : option (list Z) * option Q) (w w' : World) :
  knapsack_body Solve weights volumes values (pre ++ (a, b, f) :: post)
    max_weight max_volume time_limit_s (mkWorld new_CpModel []) = (inr res, w) ->
  knapsack_body Solve weights volumes values
    (pre ++ (a mod Py.len values, b mod Py.len values, f) :: post)
    max_weight max_volume time_limit_s (mkWorld new_CpModel []) = (inr res', w') ->
  constraints (model w) = constraints (model w') /\
  objective (model w) = objective (model w').
Proof.
  intros H H'.
  apply run_returned in H as (Hwi & -> & _).
  apply run_returned in H' as (_ & -> & _).
  apply well_indexed_parts in Hwi as (Hok & _ & _).
  rewrite forallb_app in Hok. cbn [forallb boost_ok] in Hok.
  rewrite !andb_true_iff in Hok. destruct Hok as (_ & (Ha & Hb) & _).
  unfold built_model, Py.len. cbn [constraints objective].
  rewrite !all_links_app, !extra_terms_app.
  cbn [all_links extra_terms link_constraints extra].
  rewrite !position_mod by assumption. split; reflexivity.
Qed.

Lemma endpoints_modulo_items_witness :
  let run := knapsack_body exhaustive_Solve [2; 3] [1; 1] [10#1; 10#1]
               ([] ++ (-1, 0, 2#1) :: []) 5 2 10 (mkWorld new_CpModel []) in
  let run' := knapsack_body exhaustive_Solve [2; 3] [1; 1] [10#1; 10#1]
               ([] ++ (-1 mod Py.len [10#1; 10#1], 0 mod Py.len [10#1; 10#1], 2#1) :: [])
               5 2 10 (mkWorld new_CpModel []) in
  fst run = inr (Some [0; 1], Some (30#1)) /\
  fst run' = inr (Some [0; 1], Some (30#1)) /\
  -1 mod Py.len [10#1; 10#1] = 1 /\
  constraints (model (snd run)) = constraints (model (snd run')) /\
  objective (model (snd run)) = objective (model (snd run')).
Proof.
  cbv zeta. split; [vm_compute; reflexivity|].
  split; [vm_compute; reflexivity|].
  split; [reflexivity|].
  apply (endpoints_modulo_items exhaustive_Solve [2; 3] [1; 1] [10#1; 10#1] [] []
           (-1) 0 (2#1) 5 2 10
           (Some [0; 1], Some (30#1)) (Some [0; 1], Some (30#1))).
  - vm_compute. reflexivity.
  - vm_compute. reflexivity.
Defined.

(** ** Capacities *)

Lemma Zsum_nonneg (l : list Z) : (forall v, In v l -> 0 <= v) -> 0 <= Zsum l.
Proof.
  induction l as [|u l IH]; intros H; [cbn; lia|].
  cbn [Zsum fold_right]. change (fold_right Z.add 0 l) with (Zsum l).
  assert (0 <= u) by (apply H; now left).
  assert (0 <= Zsum l) by (apply IH; intros; apply H; now right). lia.
Qed.

Lemma selected_sum_nonneg (data : list Z) (sel : list Z) :
  (forall d, In d data -> 0 <= d) -> 0 <= Zsum (map (item 0 data) sel).
Proof.
  intros H. apply Zsum_nonneg. intros v Hv.
  apply in_map_iff in Hv as (i & <- & _). now apply item_nonneg.
Qed.

Section Capacities.

Variable Solve : Q -> CpModel -> CpSolverResponse.
Hypothesis Solve_sound : forall t m, sound_response m (Solve t m).

Variables (weights volumes : list Z) (values : list Q) (boosts : list Boost).
Variable time_limit_s : Q.

(** X8.  With non-negative weights a negative [max_weight] admits no
    selection, not even the empty one, and likewise for volumes: the call
    then never returns a selection. *)
Theorem negative_capacity_no_selection (max_weight max_volume : Z)
    (sel : list Z) (total : Q) :
  (max_weight < 0 /\ (forall w, In w weights -> 0 <= w)) \/
  (max_volume < 0 /\ (forall v, In v volumes -> 0 <= v)) ->
  knapsack_with_boosts Solve weights volumes values boosts
    max_weight max_volume time_limit_s <> inr (Some sel, Some total).
Proof.
  intros Hneg H.
  destruct (returned_within_capacity Solve Solve_sound _ _ _ _ _ _ _ _ _ H)
    as [Cw Cv].
  destruct Hneg as [[Hm Hw] | [Hm Hv]].
  - pose proof (selected_sum_nonneg weights sel Hw). lia.
  - pose proof (selected_sum_nonneg volumes sel Hv). lia.
Qed.

End Capacities.

Lemma negative_capacity_no_selection_witness :
  (forall t m, sound_response m (exhaustive_Solve t m)) /\
  (-1 < 0 /\ (forall w, In w [0; 2] -> 0 <= w)) /\
  knapsack_with_boosts exhaustive_Solve [0; 2] [1; 1] [10#1; 10#1] [] (-1) 2 10
  = inr (None, None) /\
  knapsack_with_boosts exhaustive_Solve [0; 2] [1; 1] [10#1; 10#1] [] (-1) 2 10
  <> inr (Some [], Some 0%Q).
Proof.
  assert (Hw : forall w, In w [0; 2] -> 0 <= w) by (intros w [<-|[<-|[]]]; lia).
  split; [exact exhaustive_Solve_sound|].
  split; [split; [lia | exact Hw]|].
  split; [vm_compute; reflexivity|].
  apply (negative_capacity_no_selection exhaustive_Solve exhaustive_Solve_sound
           [0; 2] [1; 1] [10#1; 10#1] [] 10 (-1) 2 [] 0%Q).
  left. split; [lia | exact Hw].
Defined.

(** X9.  Raising a capacity never lowers the optimum: every feasible
    assignment of the model built under capacities [(W, V)] is feasible,
    with the same objective, for the model built under [(W', V')] with
    [W <= W'] and [V <= V'], so the optimum of the first model is at most
    that of the second. *)
Theorem larger_capacity_no_worse (Solve : Q -> CpModel -> CpSolverResponse)
    (weights volumes : list Z) (values : list Q) (boosts : list Boost)
    (time_limit_s : Q) (max_weight max_volume max_weight' max_volume' : Z)
    (res res' : option (list Z) * option Q) (w w' : World) :
  max_weight <= max_weight' -> max_volume <= max_volume' ->
  knapsack_body Solve weights volumes values boosts max_weight max_volume
    time_limit_s (mkWorld new_CpModel []) = (inr res, w) ->
  knapsack_body Solve weights volumes values boosts max_weight' max_volume'
    time_limit_s (mkWorld new_CpModel []) = (inr res', w') ->
  (forall sol, feasibleb (model w) sol = true ->
               feasibleb (model w') sol = true /\
               objective_at (model w) sol == objective_at (model w') sol) /\
  (forall v v', optimum_of (model w) v -> optimum_of (model w') v' -> (v <= v')%Q).
Proof.
  intros Hw Hv H H'.
  apply run_returned in H as (_ & -> & _).
  apply run_returned in H' as (_ & -> & _).
  assert (T : forall sol,
             feasibleb (built_model weights volumes values boosts
                          max_weight max_volume) sol = true ->
             feasibleb (built_model weights volumes values boosts
                          max_weight' max_volume') sol = true /\
             objective_at (built_model weights volumes values boosts
                             max_weight max_volume) sol
             == objective_at (built_model weights volumes values boosts
                                max_weight' max_volume') sol).
  { intros sol F. split.
    - apply feasibleb_built. apply feasibleb_built in F.
      destruct F as (L & B & Lk & Cw & Cv). repeat split; auto; lia.
    - rewrite !objective_at_built. reflexivity. }
  split; [exact T|].
  intros v v' O O'. apply (optimum_le _ _ _ _ O O').
  intros sol F. destruct (T sol F) as [F' E].
  exists sol. split; [exact F'|]. rewrite E. apply Qle_refl.
Qed.

Lemma larger_capacity_no_worse_witness :
  let run := knapsack_body exhaustive_Solve [2; 3] [1; 1] [10#1; 10#1]
               [(0, 1, 2#1)] 2 2 10 (mkWorld new_CpModel []) in
  let run' := knapsack_body exhaustive_Solve [2; 3] [1; 1] [10#1; 10#1]
                [(0, 1, 2#1)] 5 2 10 (mkWorld new_CpModel []) in
  2 <= 5 /\ 2 <= 2 /\
  fst run = inr (Some [0], Some (10#1)) /\
  fst run' = inr (Some [0; 1], Some (30#1)) /\
  optimum_of (model (snd run)) (10#1) /\
  optimum_of (model (snd run')) (30#1) /\
  Qle (10#1) (30#1).
Proof.
  cbv zeta.
  assert (O : optimum_of
                (model (snd (knapsack_body exhaustive_Solve [2; 3] [1; 1]
                               [10#1; 10#1] [(0, 1, 2#1)] 2 2 10
                               (mkWorld new_CpModel [])))) (10#1))
    by (apply (exhaustive_optimum_value 10); vm_compute; reflexivity).
  assert (O' : optimum_of
                 (model (snd (knapsack_body exhaustive_Solve [2; 3] [1; 1]
                                [10#1; 10#1] [(0, 1, 2#1)] 5 2 10
                                (mkWorld new_CpModel [])))) (30#1))
    by (apply (exhaustive_optimum_value 10); vm_compute; reflexivity).
  split; [lia|]. split; [lia|].
  split; [vm_compute; reflexivity|].
  split; [vm_compute; reflexivity|].
  split; [exact O|]. split; [exact O'|].
  refine (proj2 (larger_capacity_no_worse exhaustive_Solve [2; 3] [1; 1]
                   [10#1; 10#1] [(0, 1, 2#1)] 10 2 2 5 2
                   (Some [0], Some (10#1)) (Some [0; 1], Some (30#1)) _ _
                   _ _ _ _) (10#1) (30#1) O O').
  - lia.
  - lia.
  - vm_compute. reflexivity.
  - vm_compute. reflexivity.
Defined.

(** ** Adding or removing one boost *)

Lemma selection_value_split (values : list Q) (pre post : list Boost) (t : Boost)
    (sol : list Z) :
  selection_value values (pre ++ t :: post) sol ==
  selection_value values (pre ++ post) sol
  + (if both_chosen sol (length values) t then extra values t else 0).
Proof.
  unfold selection_value. rewrite !filter_app. cbn [filter].
  destruct (both_chosen sol (length values) t).
  - rewrite !map_app, !Qsum_app. cbn [map Qsum fold_right].
    change (fold_right Qplus 0%Q ?l) with (Qsum l). ring.
  - ring.
Qed.

Section OneBoost.

Variable Solve : Q -> CpModel -> CpSolverResponse.

Variables (weights volumes : list Z) (values : list Q).
Variables (pre post : list Boost) (a b : Z) (f : Q).
Variables (max_weight max_volume : Z) (time_limit_s : Q).

Let with_boost := pre ++ (a, b, f) :: post.
Let without_boost := pre ++ post.
Let run1 :=
  knapsack_body Solve weights volumes values with_boost max_weight max_volume
    time_limit_s (mkWorld new_CpModel []).
Let run0 :=
  knapsack_body Solve weights volumes values without_boost max_weight max_volume
    time_limit_s (mkWorld new_CpModel []).

(** X10.  A bonus never lowers the optimum: when [values[a] * (factor - 1)]
    is not negative, the optimum of the model built without the boost
    [(a, b, factor)] is at most the optimum of the model built with it. *)
Theorem bonus_boost_no_worse
    (res0 res1 : option (list Z) * option Q) (w0 w1 : World) (v0 v1 : Q) :
  (0 <= extra values (a, b, f))%Q ->
  run0 = (inr res0, w0) -> run1 = (inr res1, w1) ->
  optimum_of (model w0) v0 -> optimum_of (model w1) v1 ->
  (v0 <= v1)%Q.
Proof.
  intros He H0 H1 O0 O1.
  apply run_returned in H0 as (_ & Hm0 & _).
  apply run_returned in H1 as (Hwi1 & Hm1 & _).
  rewrite Hm0 in O0. rewrite Hm1 in O1.
  apply well_indexed_parts in Hwi1 as (Hok1 & _ & _).
  apply (optimum_le _ _ _ _ O0 O1). intros sol F.
  destruct (extend_objective weights volumes values max_weight max_volume
              with_boost without_boost sol Hok1 F) as [G E].
  exists (extend (length values) sol with_boost). split; [exact G|].
  rewrite E, (objective_selection_value _ _ _ _ _ _ _ F).
  unfold with_boost, without_boost. rewrite selection_value_split.
  destruct (both_chosen _ _ _).
  - rewrite <- (Qplus_0_r (selection_value values (pre ++ post) sol)) at 1.
    apply Qplus_le_r. exact He.
  - rewrite Qplus_0_r. apply Qle_refl.
Qed.

(** X11.  A penalty never raises the optimum: when
    [values[a] * (factor - 1)] is not positive, the optimum of the model
    built with the boost [(a, b, factor)] is at most the optimum of the
    model built without it. *)
Theorem penalty_boost_no_better
    (res0 res1 : option (list Z) * option Q) (w0 w1 : World) (v0 v1 : Q) :
  (extra values (a, b, f) <= 0)%Q ->
  run1 = (inr res1, w1) -> run0 = (inr res0, w0) ->
  optimum_of (model w1) v1 -> optimum_of (model w0) v0 ->
  (v1 <= v0)%Q.
Proof.
  intros He H1 H0 O1 O0.
  apply run_returned in H0 as (_ & Hm0 & _).
  apply run_returned in H1 as (Hwi1 & Hm1 & _).
  rewrite Hm0 in O0. rewrite Hm1 in O1.
  apply well_indexed_parts in Hwi1 as (Hok1 & _ & _).
  pose proof (boost_ok_without _ _ _ _ Hok1) as Hok0. fold without_boost in Hok0.
  apply (optimum_le _ _ _ _ O1 O0). intros sol F.
  destruct (extend_objective weights volumes values max_weight max_volume
              without_boost with_boost sol Hok0 F) as [G E].
  exists (extend (length values) sol without_boost). split; [exact G|].
  rewrite E, (objective_selection_value _ _ _ _ _ _ _ F).
  unfold with_boost, without_boost. rewrite selection_value_split.
  destruct (both_chosen _ _ _).
  - rewrite <- (Qplus_0_r (selection_value values (pre ++ post) sol)) at 2.
    apply Qplus_le_r. exact He.
  - rewrite Qplus_0_r. apply Qle_refl.
Qed.

End OneBoost.

Lemma bonus_boost_no_worse_witness :
  let run0 := knapsack_body exhaustive_Solve [2; 3] [1; 1] [10#1; 10#1]
                ([] ++ []) 5 2 10 (mkWorld new_CpModel []) in
  let run1 := knapsack_body exhaustive_Solve [2; 3] [1; 1] [10#1; 10#1]
                ([] ++ (0, 1, 2#1) :: []) 5 2 10 (mkWorld new_CpModel []) in
  Qle 0 (extra [10#1; 10#1] (0, 1, 2#1)) /\
  fst run0 = inr (Some [0; 1], Some (20#1)) /\
  fst run1 = inr (Some [0; 1], Some (30#1)) /\
  optimum_of (model (snd run0)) (20#1) /\
  optimum_of (model (snd run1)) (30#1) /\
  Qle (20#1) (30#1).
Proof.
  cbv zeta.
  assert (O0 : optimum_of
                 (model (snd (knapsack_body exhaustive_Solve [2; 3] [1; 1]
                                [10#1; 10#1] ([] ++ []) 5 2 10
                                (mkWorld new_CpModel [])))) (20#1))
    by (apply (exhaustive_optimum_value 10); vm_compute; reflexivity).
  assert (O1 : optimum_of
                 (model (snd (knapsack_body exhaustive_Solve [2; 3] [1; 1]
                                [10#1; 10#1] ([] ++ (0, 1, 2#1) :: []) 5 2 10
                                (mkWorld new_CpModel [])))) (30#1))
    by (apply (exhaustive_optimum_value 10); vm_compute; reflexivity).
  split; [vm_compute; discriminate|].
  split; [vm_compute; reflexivity|].
  split; [vm_compute; reflexivity|].
  split; [exact O0|]. split; [exact O1|].
  refine (bonus_boost_no_worse exhaustive_Solve [2; 3] [1; 1] [10#1; 10#1] [] []
            0 1 (2#1) 5 2 10 (Some [0; 1], Some (20#1)) (Some [0; 1], Some (30#1))
            _ _ (20#1) (30#1) _ _ _ O0 O1).
  - vm_compute. discriminate.
  - vm_compute. reflexivity.
  - vm_compute. reflexivity.
Defined.

Lemma penalty_boost_no_better_witness :
  let run1 := knapsack_body exhaustive_Solve [2; 3] [1; 1] [10#1; 10#1]
                ([] ++ (0, 1, 1#2) :: []) 5 2 10 (mkWorld new_CpModel []) in
  let run0 := knapsack_body exhaustive_Solve [2; 3] [1; 1] [10#1; 10#1]
                ([] ++ []) 5 2 10 (mkWorld new_CpModel []) in
  Qle (extra [10#1; 10#1] (0, 1, 1#2)) 0 /\
  fst run1 = inr (Some [0; 1], Some (30#2)) /\
  fst run0 = inr (Some [0; 1], Some (20#1)) /\
  optimum_of (model (snd run1)) (30#2) /\
  optimum_of (model (snd run0)) (20#1) /\
  Qle (30#2) (20#1).
Proof.
  cbv zeta.
  assert (O1 : optimum_of
                 (model (snd (knapsack_body exhaustive_Solve [2; 3] [1; 1]
                                [10#1; 10#1] ([] ++ (0, 1, 1#2) :: []) 5 2 10
                                (mkWorld new_CpModel [])))) (30#2))
    by (apply (exhaustive_optimum_value 10); vm_compute; reflexivity).
  assert (O0 : optimum_of
                 (model (snd (knapsack_body exhaustive_Solve [2; 3] [1; 1]
                                [10#1; 10#1] ([] ++ []) 5 2 10
                                (mkWorld new_CpModel [])))) (20#1))
    by (apply (exhaustive_optimum_value 10); vm_compute; reflexivity).
  split; [vm_compute; discriminate|].
  split; [vm_compute; reflexivity|].
  split; [vm_compute; reflexivity|].
  split; [exact O1|]. split; [exact O0|].
  refine (penalty_boost_no_better exhaustive_Solve [2; 3] [1; 1] [10#1; 10#1] [] []
            0 1 (1#2) 5 2 10 (Some [0; 1], Some (20#1)) (Some [0; 1], Some (30#2))
            _ _ (20#1) (30#2) _ _ _ O1 O0).
  - vm_compute. discriminate.
  - vm_compute. reflexivity.
  - vm_compute. reflexivity.
Defined.

(** ** Penalties on a selected pair *)

Lemma Qsum_negative (l : list Q) :
  l <> [] -> (forall q, In q l -> q < 0)%Q -> (Qsum l < 0)%Q.
Proof.
  induction l as [|q l IH]; intros Hne H; [congruence|].
  cbn [Qsum fold_right]. change (fold_right Qplus 0%Q l) with (Qsum l).
  assert (Hq : (q < 0)%Q) by (apply H; now left).
  destruct l as [|q' l'].
  - cbn. now rewrite Qplus_0_r.
  - assert (Hl : (Qsum (q' :: l') < 0)%Q).
    { apply IH; [discriminate|]. intros; apply H; now right. }
    setoid_replace 0%Q with (0 + 0)%Q by ring.
    apply Qplus_lt_le_compat; [exact Hq | now apply Qlt_le_weak].
Qed.

Section Penalty.

Variable Solve : Q -> CpModel -> CpSolverResponse.
Hypothesis Solve_sound : forall t m, sound_response m (Solve t m).

Variables (weights volumes : list Z) (values : list Q) (boosts : list Boost).
Variables (max_weight max_volume : Z) (time_limit_s : Q).

(** X12.  When some boost has both of its items in the returned selection
    and every such boost is a penalty ([values[a] * (factor - 1) < 0]), the
    reported total is strictly below the plain sum of the selected values. *)
Theorem penalties_lower_total (sel : list Z) (total : Q) :
  knapsack_with_boosts Solve weights volumes values boosts
    max_weight max_volume time_limit_s = inr (Some sel, Some total) ->
  (exists t, In t boosts /\ both_selected (length values) sel t = true) ->
  (forall t, In t boosts -> both_selected (length values) sel t = true ->
             (extra values t < 0)%Q) ->
  (total < Qsum (map (item 0%Q values) sel))%Q.
Proof.
  intros H (t & Hin & Ht) Hpen.
  rewrite (returned_total Solve Solve_sound _ _ _ _ _ _ _ _ _ H).
  unfold recomputed.
  rewrite <- (Qplus_0_r (Qsum (map (item 0%Q values) sel))) at 2.
  apply Qplus_lt_r. apply Qsum_negative.
  - intros E. apply map_eq_nil in E.
    assert (Hf : In t (filter (both_selected (length values) sel) boosts))
      by (apply filter_In; auto).
    rewrite E in Hf. exact Hf.
  - intros q Hq. apply in_map_iff in Hq as (t' & <- & Ht').
    apply filter_In in Ht' as [Hin' Hsel']. now apply Hpen.
Qed.

End Penalty.

Lemma penalties_lower_total_witness :
  (forall t m, sound_response m (exhaustive_Solve t m)) /\
  knapsack_with_boosts exhaustive_Solve [2; 3] [1; 1] [10#1; 10#1]
    [(0, 1, 1#2)] 5 2 10 = inr (Some [0; 1], Some (30#2)) /\
  both_selected 2 [0; 1] (0, 1, 1#2) = true /\
  Qlt (30#2) (Qsum (map (item 0%Q [10#1; 10#1]) [0; 1])).
Proof.
  split; [exact exhaustive_Solve_sound|].
  split; [vm_compute; reflexivity|].
  split; [vm_compute; reflexivity|].
  apply (penalties_lower_total exhaustive_Solve exhaustive_Solve_sound
           [2; 3] [1; 1] [10#1; 10#1] [(0, 1, 1#2)] 5 2 10 [0; 1] (30#2)).
  - vm_compute. reflexivity.
  - exists (0, 1, 1#2). split; [now left | vm_compute; reflexivity].
  - intros t [<-|[]] _. vm_compute. reflexivity.
Defined.
